(** * pflask, [src/netif.c]: rtnetlink request encoding and the interface queue

    A shallow embedding of [netif.c].  The message buffer is modelled at the
    byte level: a request lives in a [malloc]ed block that the code reads and
    writes through struct fields and pointer arithmetic, so the model is a
    byte-addressed memory indexed by the offset from the start of the block,
    with multi-byte fields stored little-endian (Linux LP64: [int] and
    [__u32] are 4 bytes, [unsigned short] is 2, [size_t] is 8).

    The kernel and the C library are an interface ([OS]); the program runs in
    a state-and-exit monad over it, and every system call it makes is
    recorded in an event log. *)

From Stdlib Require Import ZArith List String Ascii Lia Bool DecimalString.
From coqutil Require Import Byte Word.LittleEndianList.
Import ListNotations.
Local Open Scope string_scope.
Local Open Scope list_scope.
Local Open Scope Z_scope.

(** ** Machine integers *)

Definition u16 (z : Z) : Z := z mod 2 ^ 16.
Definition u32 (z : Z) : Z := z mod 2 ^ 32.
Definition u64 (z : Z) : Z := z mod 2 ^ 64.

(** The value of a 32-bit pattern read as a C [int]. *)
Definition s32 (z : Z) : Z :=
  let u := u32 z in if u <? 2 ^ 31 then u else u - 2 ^ 32.

(** ** Constants of the kernel headers

    [<linux/netlink.h>], [<linux/rtnetlink.h>], [<linux/if_link.h>],
    [<linux/veth.h>] and [<net/if.h>] are system headers; the values are
    those of the Linux ABI. *)

Definition NLMSG_ALIGNTO : Z := 4.
Definition RTA_ALIGNTO : Z := 4.

Definition sizeof_nlmsghdr : Z := 16.
Definition sizeof_ifinfomsg : Z := 16.
Definition sizeof_nlmsgerr : Z := 20.
Definition sizeof_rtattr : Z := 4.
Definition sizeof_int : Z := 4.

(** [struct nlmsg] is a [nlmsghdr] followed by the union of an [ifinfomsg]
    and a [nlmsgerr]. *)
Definition sizeof_nlmsg : Z := sizeof_nlmsghdr + Z.max sizeof_ifinfomsg sizeof_nlmsgerr.

Definition NLMSG_GOOD_SIZE : Z := sizeof_nlmsg * 256.

Definition RTM_NEWLINK : Z := 16.
Definition NLMSG_ERROR : Z := 2.

Definition NLM_F_REQUEST : Z := 1.
Definition NLM_F_ACK : Z := 4.
Definition NLM_F_EXCL : Z := 512.
Definition NLM_F_CREATE : Z := 1024.

Definition AF_UNSPEC : Z := 0.
Definition IFF_UP : Z := 1.

Definition IFLA_IFNAME : Z := 3.
Definition IFLA_LINK : Z := 5.
Definition IFLA_LINKINFO : Z := 18.
Definition IFLA_NET_NS_PID : Z := 19.
Definition IFLA_INFO_KIND : Z := 1.
Definition IFLA_INFO_DATA : Z := 2.
Definition VETH_INFO_PEER : Z := 1.

(** [NLMSG_ALIGN] works on the 32-bit [nlmsg_len]; the mask is
    [~(NLMSG_ALIGNTO - 1)] with [NLMSG_ALIGNTO] the constant [4U]. *)
Definition NLMSG_ALIGN (len : Z) : Z :=
  u32 (Z.land (len + NLMSG_ALIGNTO - 1) (Z.lnot (NLMSG_ALIGNTO - 1))).

Definition NLMSG_HDRLEN : Z := NLMSG_ALIGN sizeof_nlmsghdr.
Definition NLMSG_LENGTH (len : Z) : Z := len + NLMSG_HDRLEN.

(** [RTA_ALIGN] is applied to a [size_t]; its mask is the [unsigned int]
    [~(RTA_ALIGNTO - 1)], which the conversion to [size_t] extends with
    zeros. *)
Definition RTA_ALIGN (len : Z) : Z :=
  Z.land (u64 (len + RTA_ALIGNTO - 1)) (u32 (Z.lnot (RTA_ALIGNTO - 1))).

Definition RTA_LENGTH (len : Z) : Z := u64 (RTA_ALIGN sizeof_rtattr + len).

(** ** Memory *)

(** The block returned by [malloc (NLMSG_GOOD_SIZE)], and what lies behind
    it: offset [a] is the byte at [(char * ) req + a].  The block itself is
    the offsets [0 <= a < NLMSG_GOOD_SIZE]. *)
Definition memory : Type := Z -> byte.

Definition store_bytes (m : memory) (off : Z) (bs : list byte) : memory :=
  fun a =>
    if (off <=? a) && (a <? off + Z.of_nat (List.length bs))
    then nth (Z.to_nat (a - off)) bs Byte.x00
    else m a.

Definition load_bytes (m : memory) (off : Z) (n : nat) : list byte :=
  map (fun i => m (off + Z.of_nat i)) (seq 0 n).

(** A little-endian unsigned field of [sz] bytes. *)
Definition load (sz : nat) (m : memory) (off : Z) : Z :=
  le_combine (load_bytes m off sz).

Definition store (sz : nat) (m : memory) (off : Z) (v : Z) : memory :=
  store_bytes m off (le_split sz v).

(** [memcpy (dst, src, len)], the source being the bytes [d] of the caller's
    object. *)
Definition memcpy (m : memory) (dst : Z) (d : list byte) (len : Z) : memory :=
  store_bytes m dst (firstn (Z.to_nat len) d).

(** ** The fields of [struct nlmsg] and [struct rtattr] *)

(** [struct nlmsghdr hdr], at offset 0. *)
Definition nlmsg_len (m : memory) : Z := load 4 m 0.
Definition nlmsg_type (m : memory) : Z := load 2 m 4.
Definition nlmsg_flags (m : memory) : Z := load 2 m 6.
Definition nlmsg_seq (m : memory) : Z := load 4 m 8.

Definition set_nlmsg_len (m : memory) (v : Z) : memory := store 4 m 0 v.
Definition set_nlmsg_type (m : memory) (v : Z) : memory := store 2 m 4 v.
Definition set_nlmsg_flags (m : memory) (v : Z) : memory := store 2 m 6 v.
Definition set_nlmsg_seq (m : memory) (v : Z) : memory := store 4 m 8 v.

(** [struct ifinfomsg msg.ifi], at offset 16 and at [base] for an embedded
    one. *)
Definition ifi_family (m : memory) (base : Z) : Z := load 1 m base.
Definition ifi_index (m : memory) (base : Z) : Z := load 4 m (base + 4).
Definition ifi_flags (m : memory) (base : Z) : Z := load 4 m (base + 8).
Definition ifi_change (m : memory) (base : Z) : Z := load 4 m (base + 12).

Definition msg_off : Z := sizeof_nlmsghdr.

Definition set_ifi_family (m : memory) (v : Z) : memory := store 1 m msg_off v.
Definition set_ifi_index (m : memory) (v : Z) : memory := store 4 m (msg_off + 4) v.
Definition set_ifi_flags (m : memory) (v : Z) : memory := store 4 m (msg_off + 8) v.
Definition set_ifi_change (m : memory) (v : Z) : memory := store 4 m (msg_off + 12) v.

(** [msg.err.error], the [int] that opens [struct nlmsgerr]. *)
Definition err_error (m : memory) : Z := s32 (load 4 m msg_off).

(** [struct rtattr] at offset [rta]: [rta_len], then [rta_type]. *)
Definition rta_len (m : memory) (rta : Z) : Z := load 2 m rta.
Definition rta_type (m : memory) (rta : Z) : Z := load 2 m (rta + 2).

Definition set_rta_len (m : memory) (rta v : Z) : memory := store 2 m rta v.
Definition set_rta_type (m : memory) (rta v : Z) : memory := store 2 m (rta + 2) v.

Definition RTA_DATA (rta : Z) : Z := rta + RTA_LENGTH 0.
Definition RTA_PAYLOAD (m : memory) (rta : Z) : Z := rta_len m rta - RTA_LENGTH 0.

(** The payload of the attribute at [rta], as its length field delimits
    it. *)
Definition rta_data (m : memory) (rta : Z) : list byte :=
  load_bytes m (RTA_DATA rta) (Z.to_nat (RTA_PAYLOAD m rta)).

(** ** [netif.c]: the message buffer *)

(** [NLMSG_TAIL (nmsg)], as an offset from the start of the message. *)
Definition NLMSG_TAIL (nmsg : memory) : Z := NLMSG_ALIGN (nlmsg_len nmsg).

Definition rtattr_append (nlmsg : memory) (attr : Z) (d : list byte) (len : Z)
  : memory :=
  let rtalen := RTA_LENGTH len in
  let rtattr := NLMSG_TAIL nlmsg in
  let nlmsg := set_rta_type nlmsg rtattr attr in
  let nlmsg := set_rta_len nlmsg rtattr rtalen in
  let nlmsg := memcpy nlmsg (RTA_DATA rtattr) d len in
  set_nlmsg_len nlmsg (NLMSG_ALIGN (nlmsg_len nlmsg) + RTA_ALIGN rtalen).

(** The returned pointer is the offset of the nested attribute's header. *)
Definition rtattr_start_nested (nlmsg : memory) (attr : Z) : Z * memory :=
  let rtattr := NLMSG_TAIL nlmsg in
  (rtattr, rtattr_append nlmsg attr [] 0).

Definition rtattr_end_nested (nlmsg : memory) (rtattr : Z) : memory :=
  set_rta_len nlmsg rtattr (NLMSG_TAIL nlmsg - rtattr).


(** ** Strings and objects passed by address *)

(** A C string is modelled by its characters; the terminating NUL is added
    where the code copies [strlen (s) + 1] bytes. *)
Definition strlen (s : string) : Z := Z.of_nat (String.length s).

Definition cstring (s : string) : list byte := list_byte_of_string s ++ [Byte.x00].

(** The object representation of an [int] ([&pid], [&master]). *)
Definition int_bytes (v : Z) : list byte := le_split 4 v.

(** [asprintf (&name, "pflask-%d", pid)].  Memory allocation is taken to
    succeed, here and in [malloc] and [strdup]. *)
Definition asprintf_pflask (pid : Z) : string :=
  ("pflask-" ++ NilZero.string_of_int (Z.to_int pid))%string.

(** ** The pending list *)

Inductive netif_type : Type := MOVE | MACVLAN | VETH.

(** One node of [struct NETIF_LIST]; the [next] pointers of a chain are the
    tail of a Rocq list. *)
Record netif_list : Type := mk_netif {
  type : netif_type;
  dev : string;
  name : string
}.

(** ** The kernel and the C library *)

(** What the program asks of its environment.  A return code below zero is a
    failure; [if_nametoindex] returns 0 for a name that has no interface;
    [malloc] gives the (indeterminate) contents of the fresh block. *)
Class OS (kernel : Type) : Type := {
  socket : kernel -> Z * kernel;
  getpid : kernel -> Z;
  bind : Z -> Z -> kernel -> Z * kernel;
  sendmsg : Z -> list byte -> kernel -> Z * kernel;
  recvmsg : Z -> Z -> kernel -> Z * list byte * kernel;
  close : Z -> kernel -> kernel;
  if_nametoindex : string -> kernel -> Z;
  malloc : Z -> kernel -> memory;
  strerror : Z -> string
}.

(** The log of what the program did: its system calls with their results,
    and the entries into the four request functions with their arguments. *)
Inductive event : Type :=
| ev_socket (rc : Z)
| ev_bind (sock nl_pid rc : Z)
| ev_close (sock : Z)
| ev_if_nametoindex (ifname : string) (if_index : Z)
| ev_sendmsg (sock : Z) (datagram : list byte) (rc : Z)
| ev_recvmsg (sock iov_len rc : Z)
| ev_if_up (sock if_index : Z)
| ev_move_and_rename_if (sock pid if_index : Z) (new_name : string)
| ev_create_macvlan (sock master : Z) (name : string)
| ev_create_veth_pair (sock : Z) (name_out name_in : string).

(** Modelled from the spec: [fail_printf] and [sysf_printf] ([printf.h] is
    not among the sources) report the formatted message and terminate the
    process; the spec (section 7) has every error surface as a terminating
    condition with a descriptive message.  [sysf_printf] is the variant used
    after a failed system call. *)
Inductive failure : Type :=
| fail_msg (msg : string)
| sysf_msg (msg : string).

Inductive outcome (A : Type) : Type :=
| Done (a : A)
| Exit (f : failure).

Arguments Done {A} a.
Arguments Exit {A} f.

Declare Scope prog_scope.
Delimit Scope prog_scope with prog.
Local Open Scope prog_scope.

Section Netif.
Context {kernel : Type} {os : OS kernel}.

(** The kernel, the static [netifs] and the log. *)
Record state : Type := mk_state {
  kern : kernel;
  netifs : list netif_list;
  trace : list event
}.

Definition M (A : Type) : Type := state -> outcome A * state.

Definition ret {A : Type} (a : A) : M A := fun st => (Done a, st).

Definition mbind {A B : Type} (c : M A) (k : A -> M B) : M B :=
  fun st =>
    match c st with
    | (Done a, st') => k a st'
    | (Exit f, st') => (Exit f, st')
    end.

Definition fail_printf {A : Type} (msg : string) : M A :=
  fun st => (Exit (fail_msg msg), st).

Definition sysf_printf {A : Type} (msg : string) : M A :=
  fun st => (Exit (sysf_msg msg), st).

(** [if (cond) fail (...)]. *)
Definition when (cond : bool) (c : M unit) : M unit :=
  if cond then c else ret tt.

Definition log (e : event) : M unit :=
  fun st => (Done tt, mk_state (kern st) (netifs st) (trace st ++ [e])).

Definition get_netifs : M (list netif_list) := fun st => (Done (netifs st), st).

Definition set_netifs (l : list netif_list) : M unit :=
  fun st => (Done tt, mk_state (kern st) l (trace st)).

Definition with_kernel {A : Type} (f : kernel -> A * kernel) : M A :=
  fun st => let '(a, k) := f (kern st) in
            (Done a, mk_state k (netifs st) (trace st)).

Definition ask_kernel {A : Type} (f : kernel -> A) : M A :=
  fun st => (Done (f (kern st)), st).

Notation "x <- c ;; k" := (mbind c (fun x => k))
  (at level 61, c at next level, right associativity) : prog_scope.
Notation "c ;; k" := (mbind c (fun _ => k))
  (at level 61, right associativity) : prog_scope.

(** *** System calls, logged *)

Definition sys_socket : M Z :=
  rc <- with_kernel socket ;; log (ev_socket rc) ;; ret rc.

Definition sys_bind (sock nl_pid : Z) : M Z :=
  rc <- with_kernel (bind sock nl_pid) ;; log (ev_bind sock nl_pid rc) ;; ret rc.

Definition sys_close (sock : Z) : M unit :=
  with_kernel (fun k => (tt, close sock k)) ;; log (ev_close sock).

Definition sys_if_nametoindex (ifname : string) : M Z :=
  i <- ask_kernel (if_nametoindex ifname) ;; log (ev_if_nametoindex ifname i) ;; ret i.

Definition sys_sendmsg (sock : Z) (datagram : list byte) : M Z :=
  rc <- with_kernel (sendmsg sock datagram) ;; log (ev_sendmsg sock datagram rc) ;; ret rc.

Definition sys_recvmsg (sock iov_len : Z) : M (Z * list byte) :=
  r <- with_kernel (recvmsg sock iov_len) ;; log (ev_recvmsg sock iov_len (fst r)) ;; ret r.

Definition sys_malloc (size : Z) : M memory := ask_kernel (malloc size).

(** *** The netlink session *)

Definition nl_open : M Z :=
  sock <- sys_socket ;;
  when (sock <? 0) (sysf_printf "socket()") ;;
  nl_pid <- ask_kernel getpid ;;
  rc <- sys_bind sock nl_pid ;;
  when (rc <? 0) (sysf_printf "bind()") ;;
  ret sock.

(** The datagram is the [nlmsg_len] bytes at the start of the message. *)
Definition nl_send (sock : Z) (nlmsg : memory) : M unit :=
  rc <- sys_sendmsg sock (load_bytes nlmsg 0 (Z.to_nat (nlmsg_len nlmsg))) ;;
  when (rc <? 0) (sysf_printf "sendmsg()").

(** The reply is received over the request, at most [nlmsg_len] bytes of
    it. *)
Definition nl_recv (sock : Z) (nlmsg : memory) : M memory :=
  r <- sys_recvmsg sock (nlmsg_len nlmsg) ;;
  let nlmsg' := store_bytes nlmsg 0 (firstn (Z.to_nat (nlmsg_len nlmsg)) (snd r)) in
  when (fst r <? 0) (sysf_printf "recvmsg()") ;;
  ret nlmsg'.

(** The test that closes each of the four request functions (lines
    215-219, 239-243, 271-275 and 314-318). *)
Definition check_reply (req : memory) : M unit :=
  if nlmsg_type req =? NLMSG_ERROR then
    if err_error req <? 0 then
      fail_printf ("Error sending netlink request: " ++ strerror (- err_error req))%string
    else ret tt
  else ret tt.

(** *** The requests: what each function writes into its block *)

Definition if_up_req (req : memory) (if_index : Z) : memory :=
  let req := set_nlmsg_seq req 1 in
  let req := set_nlmsg_type req RTM_NEWLINK in
  let req := set_nlmsg_len req (NLMSG_LENGTH sizeof_ifinfomsg) in
  let req := set_nlmsg_flags req (Z.lor NLM_F_REQUEST NLM_F_ACK) in
  let req := set_ifi_family req AF_UNSPEC in
  let req := set_ifi_index req if_index in
  let req := set_ifi_flags req IFF_UP in
  set_ifi_change req IFF_UP.

Definition move_and_rename_if_req (req : memory) (pid if_index : Z)
    (new_name : string) : memory :=
  let req := set_nlmsg_seq req 1 in
  let req := set_nlmsg_type req RTM_NEWLINK in
  let req := set_nlmsg_len req (NLMSG_LENGTH sizeof_ifinfomsg) in
  let req := set_nlmsg_flags req (Z.lor NLM_F_REQUEST NLM_F_ACK) in
  let req := set_ifi_family req AF_UNSPEC in
  let req := set_ifi_index req if_index in
  let req := rtattr_append req IFLA_NET_NS_PID (int_bytes pid) sizeof_int in
  rtattr_append req IFLA_IFNAME (cstring new_name) (strlen new_name + 1).

Definition create_macvlan_req (req : memory) (master : Z) (name : string)
    : memory :=
  let req := set_nlmsg_seq req 1 in
  let req := set_nlmsg_type req RTM_NEWLINK in
  let req := set_nlmsg_len req (NLMSG_LENGTH sizeof_ifinfomsg) in
  let req := set_nlmsg_flags req
               (Z.lor (Z.lor (Z.lor NLM_F_REQUEST NLM_F_CREATE) NLM_F_EXCL) NLM_F_ACK) in
  let req := set_ifi_family req AF_UNSPEC in
  let '(nested, req) := rtattr_start_nested req IFLA_LINKINFO in
  let req := rtattr_append req IFLA_INFO_KIND (cstring "macvlan") 8 in
  let req := rtattr_end_nested req nested in
  let req := rtattr_append req IFLA_LINK (int_bytes master) sizeof_int in
  rtattr_append req IFLA_IFNAME (cstring name) (strlen name + 1).

Definition create_veth_pair_req (req : memory) (name_out name_in : string)
    : memory :=
  let req := set_nlmsg_seq req 1 in
  let req := set_nlmsg_type req RTM_NEWLINK in
  let req := set_nlmsg_len req (NLMSG_LENGTH sizeof_ifinfomsg) in
  let req := set_nlmsg_flags req
               (Z.lor (Z.lor (Z.lor NLM_F_REQUEST NLM_F_CREATE) NLM_F_EXCL) NLM_F_ACK) in
  let req := set_ifi_family req AF_UNSPEC in
  let '(nested_info, req) := rtattr_start_nested req IFLA_LINKINFO in
  let req := rtattr_append req IFLA_INFO_KIND (cstring "veth") 5 in
  let '(nested_data, req) := rtattr_start_nested req IFLA_INFO_DATA in
  let '(nested_peer, req) := rtattr_start_nested req VETH_INFO_PEER in
  let req := set_nlmsg_len req (nlmsg_len req + sizeof_ifinfomsg) in
  let req := rtattr_append req IFLA_IFNAME (cstring name_in) (strlen name_in + 1) in
  let req := rtattr_end_nested req nested_peer in
  let req := rtattr_end_nested req nested_data in
  let req := rtattr_end_nested req nested_info in
  rtattr_append req IFLA_IFNAME (cstring name_out) (strlen name_out + 1).

(** *** The request functions *)

(** Send the request, receive the reply over it, test the reply. *)
Definition exchange (sock : Z) (req : memory) : M unit :=
  nl_send sock req ;;
  req <- nl_recv sock req ;;
  check_reply req.

Definition if_up (sock if_index : Z) : M unit :=
  log (ev_if_up sock if_index) ;;
  req <- sys_malloc NLMSG_GOOD_SIZE ;;
  exchange sock (if_up_req req if_index).

Definition move_and_rename_if (sock pid if_index : Z) (new_name : string) : M unit :=
  log (ev_move_and_rename_if sock pid if_index new_name) ;;
  req <- sys_malloc NLMSG_GOOD_SIZE ;;
  exchange sock (move_and_rename_if_req req pid if_index new_name).

Definition create_macvlan (sock master : Z) (name : string) : M unit :=
  log (ev_create_macvlan sock master name) ;;
  req <- sys_malloc NLMSG_GOOD_SIZE ;;
  exchange sock (create_macvlan_req req master name).

Definition create_veth_pair (sock : Z) (name_out name_in : string) : M unit :=
  log (ev_create_veth_pair sock name_out name_in) ;;
  req <- sys_malloc NLMSG_GOOD_SIZE ;;
  exchange sock (create_veth_pair_req req name_out name_in).

(** *** The pending list and its replay *)

Definition add_netif (type : netif_type) (dev name : string) : M unit :=
  let nif := mk_netif type dev name in
  l <- get_netifs ;;
  set_netifs (nif :: l).

(** The first loop of [do_netif]: every node of [netifs] is unlinked and
    pushed onto [i].  The result is the final [(netifs, i)]. *)
Fixpoint reverse_netifs (netifs i : list netif_list)
    : list netif_list * list netif_list :=
  match netifs with
  | [] => (netifs, i)
  | nif :: next => reverse_netifs next (nif :: i)
  end.

(** The [switch] of the second loop: the index handed to
    [move_and_rename_if]. *)
Definition resolve_netif (sock pid : Z) (i : netif_list) : M Z :=
  match type i with
  | MACVLAN =>
      let name := asprintf_pflask pid in
      if_index <- sys_if_nametoindex (dev i) ;;
      when (if_index =? 0) (sysf_printf ("Error searching for '" ++ dev i ++ "'")%string) ;;
      create_macvlan sock if_index name ;;
      sys_if_nametoindex name
  | VETH =>
      let name := asprintf_pflask pid in
      create_veth_pair sock (dev i) name ;;
      sys_if_nametoindex name
  | MOVE =>
      if_index <- sys_if_nametoindex (dev i) ;;
      when (if_index =? 0) (sysf_printf ("Error searching for '" ++ dev i ++ "'")%string) ;;
      ret if_index
  end.

(** One turn of the second loop. *)
Definition netif_step (sock pid : Z) (i : netif_list) : M unit :=
  if_index <- resolve_netif sock pid i ;;
  move_and_rename_if sock pid if_index (name i).

(** The second loop, [while (i != NULL)]. *)
Fixpoint netif_loop (sock pid : Z) (i : list netif_list) : M unit :=
  match i with
  | [] => ret tt
  | nif :: next => netif_step sock pid nif ;; netif_loop sock pid next
  end.

(** [_close_] ([util.h]) closes the descriptor when the function
    returns. *)
Definition do_netif (pid : Z) : M unit :=
  sock <- nl_open ;;
  l <- get_netifs ;;
  let '(l', i) := reverse_netifs l [] in
  set_netifs l' ;;
  netif_loop sock pid i ;;
  sys_close sock.

Definition setup_loopback : M unit :=
  sock <- nl_open ;;
  if_up sock 1 ;;
  sys_close sock.
End Netif.

Notation "x <- c ;; k" := (mbind c (fun x => k))
  (at level 61, c at next level, right associativity) : prog_scope.
Notation "c ;; k" := (mbind c (fun _ => k))
  (at level 61, right associativity) : prog_scope.

Arguments state kernel : clear implicits.
Arguments M kernel A : clear implicits.

(** The state the program starts in: [static netif_list *netifs = NULL]. *)
Definition initial_state {kernel : Type} (k : kernel) : state kernel :=
  mk_state k [] [].

(** ** Vocabulary of the properties *)

(** [x] rounded up to the next multiple of 4. *)
Definition round_up4 (x : Z) : Z := 4 * ((x + 3) / 4).

(** *** Nested sequences of calls

    A sequence of calls on one message in which every [rtattr_start_nested]
    is closed by its [rtattr_end_nested], the last opened first.
    [op_reserve n] is the statement [req->hdr.nlmsg_len += n] of
    [create_veth_pair]. *)
#[local] Unset Elimination Schemes.
Inductive nlop : Type :=
| op_append (attr : Z) (d : list byte)
| op_nested (attr : Z) (body : list nlop)
| op_reserve (n : Z).
#[local] Set Elimination Schemes.

Fixpoint run_op (o : nlop) (nlmsg : memory) : memory :=
  match o with
  | op_append attr d => rtattr_append nlmsg attr d (Z.of_nat (List.length d))
  | op_nested attr body =>
      let '(rtattr, nlmsg) := rtattr_start_nested nlmsg attr in
      let nlmsg :=
        (fix run (os : list nlop) (nlmsg : memory) : memory :=
           match os with
           | [] => nlmsg
           | o :: os' => run os' (run_op o nlmsg)
           end) body nlmsg in
      rtattr_end_nested nlmsg rtattr
  | op_reserve n => set_nlmsg_len nlmsg (nlmsg_len nlmsg + n)
  end.

Fixpoint run_ops (os : list nlop) (nlmsg : memory) : memory :=
  match os with
  | [] => nlmsg
  | o :: os' => run_ops os' (run_op o nlmsg)
  end.

(** The bytes a sequence takes in the message. *)
Fixpoint op_size (o : nlop) : Z :=
  match o with
  | op_append _ d => round_up4 (sizeof_rtattr + Z.of_nat (List.length d))
  | op_nested _ body =>
      sizeof_rtattr +
      (fix sum (os : list nlop) : Z :=
         match os with
         | [] => 0
         | o :: os' => op_size o + sum os'
         end) body
  | op_reserve n => n
  end.

Fixpoint ops_size (os : list nlop) : Z :=
  match os with
  | [] => 0
  | o :: os' => op_size o + ops_size os'
  end.

(** Nesting depth: 0 for a plain attribute. *)
Fixpoint op_depth (o : nlop) : nat :=
  match o with
  | op_nested _ body =>
      S ((fix mx (os : list nlop) : nat :=
            match os with
            | [] => 0%nat
            | o :: os' => Nat.max (op_depth o) (mx os')
            end) body)
  | _ => 0%nat
  end.

(** Attribute types fit the 16-bit [rta_type]; reserved space is a whole
    number of 4-byte units. *)
Fixpoint op_ok (o : nlop) : Prop :=
  match o with
  | op_append attr _ => 0 <= attr < 2 ^ 16
  | op_nested attr body =>
      0 <= attr < 2 ^ 16 /\
      (fix all (os : list nlop) : Prop :=
         match os with
         | [] => True
         | o :: os' => op_ok o /\ all os'
         end) body
  | op_reserve n => 0 <= n /\ n mod 4 = 0
  end.

Fixpoint ops_ok (os : list nlop) : Prop :=
  match os with
  | [] => True
  | o :: os' => op_ok o /\ ops_ok os'
  end.

(** What a reader of the message [m] finds at offset [off] when the
    sequence was encoded there: each attribute's type, its length field and
    its payload, a nested attribute's length spanning all of its content;
    reserved space holds what the block [m0] held before the sequence. *)
Section Encoded.
Variables m0 m : memory.

Fixpoint encoded (off : Z) (o : nlop) {struct o} : Prop :=
  match o with
  | op_append attr d =>
      rta_type m off = attr /\
      rta_len m off = sizeof_rtattr + Z.of_nat (List.length d) /\
      rta_data m off = d
  | op_nested attr body =>
      rta_type m off = attr /\
      rta_len m off = op_size o /\
      (fix all (off : Z) (os : list nlop) {struct os} : Prop :=
         match os with
         | [] => True
         | o :: os' => encoded off o /\ all (off + op_size o) os'
         end) (off + sizeof_rtattr) body
  | op_reserve n => forall a, off <= a < off + n -> m a = m0 a
  end.

Fixpoint encoded_list (off : Z) (os : list nlop) {struct os} : Prop :=
  match os with
  | [] => True
  | o :: os' => encoded off o /\ encoded_list (off + op_size o) os'
  end.
End Encoded.

(** The log read back: the names handed to [move_and_rename_if], the
    requests sent and the names looked up, each in order. *)
Definition moved (e : event) : list (Z * string) :=
  match e with
  | ev_move_and_rename_if _ pid _ new_name => [(pid, new_name)]
  | _ => []
  end.

Definition sent (e : event) : list (list byte) :=
  match e with
  | ev_sendmsg _ datagram _ => [datagram]
  | _ => []
  end.

Definition looked_up (e : event) : list string :=
  match e with
  | ev_if_nametoindex ifname _ => [ifname]
  | _ => []
  end.

(** The events of sending a request and receiving its reply. *)
Definition transfer_event (e : event) : bool :=
  match e with
  | ev_sendmsg _ _ _ | ev_recvmsg _ _ _ => true
  | _ => false
  end.

(** The events of opening and closing a session; everything else is name
    resolution or a request. *)
Definition session_event (e : event) : bool :=
  match e with
  | ev_socket _ | ev_bind _ _ _ | ev_close _ => true
  | _ => false
  end.

(** [m'] differs from [m] at most in the length field of the header and in
    the bytes from [lo] up to [hi]. *)
Definition writes_within (lo hi : Z) (m m' : memory) : Prop :=
  forall a, 4 <= a -> a < lo \/ hi <= a -> m' a = m a.

(** What one call sequence does to a message whose length is aligned and
    which has room for it. *)
Definition run_spec (o : nlop) : Prop :=
  forall m : memory,
    op_ok o ->
    4 <= nlmsg_len m -> nlmsg_len m mod 4 = 0 ->
    nlmsg_len m + op_size o <= NLMSG_GOOD_SIZE ->
    nlmsg_len (run_op o m) = nlmsg_len m + op_size o /\
    encoded m (run_op o m) (nlmsg_len m) o /\
    writes_within (nlmsg_len m) (nlmsg_len m + op_size o) m (run_op o m).

(** The attribute grammar of the two link-creation requests, as the table
    of section 4.3 of the spec gives it. *)
Definition macvlan_ops (master : Z) (name : string) : list nlop :=
  [ op_nested IFLA_LINKINFO [ op_append IFLA_INFO_KIND (cstring "macvlan") ];
    op_append IFLA_LINK (int_bytes master);
    op_append IFLA_IFNAME (cstring name) ].

Definition veth_peer (name_in : string) : nlop :=
  op_nested VETH_INFO_PEER
    [ op_reserve sizeof_ifinfomsg; op_append IFLA_IFNAME (cstring name_in) ].

Definition veth_ops (name_out name_in : string) : list nlop :=
  [ op_nested IFLA_LINKINFO
      [ op_append IFLA_INFO_KIND (cstring "veth");
        op_nested IFLA_INFO_DATA [ veth_peer name_in ] ];
    op_append IFLA_IFNAME (cstring name_out) ].

(** The messages of the two failures the claims name. *)
Definition InterfaceNotFound (dev : string) : failure :=
  sysf_msg ("Error searching for '" ++ dev ++ "'")%string.

Definition NetlinkRejected {kernel : Type} {os : OS kernel} (code : Z) : failure :=
  fail_msg ("Error sending netlink request: " ++ strerror code)%string.

(** The four requests, to speak of them together. *)
Inductive request : Type :=
| rq_if_up (if_index : Z)
| rq_move_and_rename_if (pid if_index : Z) (new_name : string)
| rq_create_macvlan (master : Z) (name : string)
| rq_create_veth_pair (name_out name_in : string).

(** The attribute sequence and the header flags of each request. *)
Definition request_ops (r : request) : list nlop :=
  match r with
  | rq_if_up _ => []
  | rq_move_and_rename_if pid _ new_name =>
      [ op_append IFLA_NET_NS_PID (int_bytes pid);
        op_append IFLA_IFNAME (cstring new_name) ]
  | rq_create_macvlan master name => macvlan_ops master name
  | rq_create_veth_pair name_out name_in => veth_ops name_out name_in
  end.

Definition request_flags (r : request) : Z :=
  match r with
  | rq_if_up _ | rq_move_and_rename_if _ _ _ => Z.lor NLM_F_REQUEST NLM_F_ACK
  | _ => Z.lor (Z.lor (Z.lor NLM_F_REQUEST NLM_F_CREATE) NLM_F_EXCL) NLM_F_ACK
  end.

Section Requests.
Context {kernel : Type} {os : OS kernel}.

Definition call (sock : Z) (r : request) : M kernel unit :=
  match r with
  | rq_if_up if_index => if_up sock if_index
  | rq_move_and_rename_if pid if_index new_name =>
      move_and_rename_if sock pid if_index new_name
  | rq_create_macvlan master name => create_macvlan sock master name
  | rq_create_veth_pair name_out name_in => create_veth_pair sock name_out name_in
  end.

Definition request_event (sock : Z) (r : request) : event :=
  match r with
  | rq_if_up if_index => ev_if_up sock if_index
  | rq_move_and_rename_if pid if_index new_name =>
      ev_move_and_rename_if sock pid if_index new_name
  | rq_create_macvlan master name => ev_create_macvlan sock master name
  | rq_create_veth_pair name_out name_in => ev_create_veth_pair sock name_out name_in
  end.

Definition request_bytes (req : memory) (r : request) : memory :=
  match r with
  | rq_if_up if_index => if_up_req req if_index
  | rq_move_and_rename_if pid if_index new_name =>
      move_and_rename_if_req req pid if_index new_name
  | rq_create_macvlan master name => create_macvlan_req req master name
  | rq_create_veth_pair name_out name_in => create_veth_pair_req req name_out name_in
  end.

(** The reply as the request function finds it in its block after
    [nl_recv], when sending and receiving both went through. *)
Definition answered (sock : Z) (r : request) (st : state kernel)
    : option (memory * state kernel) :=
  match (log (request_event sock r) ;;
         req <- sys_malloc NLMSG_GOOD_SIZE ;;
         nl_send sock (request_bytes req r) ;;
         nl_recv sock (request_bytes req r)) st with
  | (Done reply, st') => Some (reply, st')
  | (Exit _, _) => None
  end.

(** Registering a sequence of actions, first to last. *)
Fixpoint add_netifs (acts : list netif_list) : M kernel unit :=
  match acts with
  | [] => ret tt
  | a :: acts' => add_netif (type a) (dev a) (name a) ;; add_netifs acts'
  end.

(** A computation keeps to events in [p] and failures in [q]: it leaves
    [netifs] alone, adds to the log only events that satisfy [p], and exits
    only with a failure that satisfies [q]. *)
Definition keeps {A : Type} (p : event -> Prop) (q : failure -> Prop)
    (c : M kernel A) : Prop :=
  forall st : state kernel,
    netifs (snd (c st)) = netifs st /\
    (exists evs, trace (snd (c st)) = trace st ++ evs /\ Forall p evs) /\
    (forall f, fst (c st) = Exit f -> q f).

(** The failures of [nl_open], and those of a request once it is built:
    the transport's, and the kernel's rejection. *)
Definition open_failure (f : failure) : Prop :=
  f = sysf_msg "socket()" \/ f = sysf_msg "bind()".

Definition exchange_failure (f : failure) : Prop :=
  f = sysf_msg "sendmsg()" \/ f = sysf_msg "recvmsg()" \/
  exists code, f = NetlinkRejected code.

(** The requests one action takes when all goes well: the move, and before
    it the creation for a MacVlan or a Veth. *)
Definition requests_of (i : netif_list) : nat :=
  match type i with
  | MOVE => 1
  | MACVLAN | VETH => 2
  end.

(** The names one action looks up when all goes well. *)
Definition lookups_of (pid : Z) (i : netif_list) : list string :=
  match type i with
  | MOVE => [dev i]
  | MACVLAN => [dev i; asprintf_pflask pid]
  | VETH => [asprintf_pflask pid]
  end.

(** The state after an event was logged. *)
Definition logged (st : state kernel) (e : event) : state kernel :=
  mk_state (kern st) (netifs st) (trace st ++ [e]).
End Requests.

(** ** A simulated kernel

    Interfaces are a table from names to indices; every request is answered
    with the next scripted reply, or acknowledged when none is left. *)
Record sim : Type := mk_sim {
  sim_links : list (string * Z);
  sim_replies : list (list byte)
}.

(** A [struct nlmsgerr] reply carrying [error]. *)
Definition error_reply (error : Z) : list byte :=
  le_split 4 (sizeof_nlmsghdr + sizeof_nlmsgerr) ++ le_split 2 NLMSG_ERROR ++
  le_split 2 0 ++ le_split 4 1 ++ le_split 4 0 ++
  le_split 4 error ++ repeat Byte.x00 16.

Fixpoint sim_lookup (ifname : string) (links : list (string * Z)) : Z :=
  match links with
  | [] => 0
  | (n, i) :: links' => if String.eqb n ifname then i else sim_lookup ifname links'
  end.

Definition sim_strerror (errnum : Z) : string :=
  if errnum =? 1 then "Operation not permitted"
  else if errnum =? 17 then "File exists"
  else if errnum =? 19 then "No such device"
  else "Unknown error".

#[export] Instance sim_os : OS sim := {
  socket k := (3, k);
  getpid _ := 100;
  bind _ _ k := (0, k);
  sendmsg _ datagram k := (Z.of_nat (List.length datagram), k);
  recvmsg _ _ k :=
    match sim_replies k with
    | [] => (Z.of_nat (List.length (error_reply 0)), error_reply 0, k)
    | r :: rs => (Z.of_nat (List.length r), r, mk_sim (sim_links k) rs)
    end;
  close _ k := k;
  if_nametoindex ifname k := sim_lookup ifname (sim_links k);
  malloc _ _ := fun _ => Byte.x00;
  strerror := sim_strerror
}.

(** ** Concrete inputs *)

(** A block of zero bytes. *)
Definition zero_block : memory := fun _ => Byte.x00.

(** A payload of 9200 bytes, more than a block holds after the 32 bytes of
    header and body. *)
Definition oversized : list byte := repeat Byte.x41 (Z.to_nat 9200).

(** The kernel of the examples: [eth0] has index 2, and once created the
    transient interface of pid 4242 has index 9. *)
Definition sim_kernel (replies : list (list byte)) : sim :=
  mk_sim [("eth0", 2); ("pflask-4242", 9)] replies.

(** The three actions of the end-to-end scenario of the spec. *)
Definition scenario : list netif_list :=
  [ mk_netif MOVE "eth0" "wan";
    mk_netif MACVLAN "eth0" "mv0";
    mk_netif VETH "veth-out" "veth-in" ].
(** * Properties *)

(** ** Alignment *)

Lemma land_lnot3 (a : Z) : Z.land a (Z.lnot 3) = 4 * (a / 4).
Proof.
  rewrite <- Z.ldiff_land.
  change 3 with (Z.ones 2).
  rewrite Z.ldiff_ones_r by lia.
  rewrite Z.shiftr_div_pow2, Z.shiftl_mul_pow2 by lia.
  change (2 ^ 2) with 4. lia.
Qed.

Lemma NLMSG_ALIGN_eq (len : Z) :
  0 <= len + 3 < 2 ^ 32 -> NLMSG_ALIGN len = round_up4 len.
Proof.
  intros H. unfold NLMSG_ALIGN, round_up4, NLMSG_ALIGNTO, u32.
  replace (len + 4 - 1) with (len + 3) by lia.
  change (4 - 1) with 3. rewrite land_lnot3.
  apply Z.mod_small. Z.div_mod_to_equations. lia.
Qed.

Lemma RTA_ALIGN_eq (len : Z) :
  0 <= len + 3 < 2 ^ 32 -> RTA_ALIGN len = round_up4 len.
Proof.
  intros H. unfold RTA_ALIGN, round_up4, RTA_ALIGNTO, u32, u64.
  replace (len + 4 - 1) with (len + 3) by lia.
  change (4 - 1) with 3.
  rewrite (Z.mod_small (len + 3)) by lia.
  change (Z.lnot 3 mod 2 ^ 32) with (Z.land (Z.lnot 3) (Z.ones 32)).
  rewrite Z.land_assoc, Z.land_ones by lia.
  rewrite land_lnot3.
  apply Z.mod_small. Z.div_mod_to_equations. lia.
Qed.

Lemma RTA_LENGTH_eq (len : Z) :
  0 <= len < 2 ^ 32 -> RTA_LENGTH len = sizeof_rtattr + len.
Proof.
  intros H. unfold RTA_LENGTH. rewrite RTA_ALIGN_eq by (cbv; split; congruence).
  unfold u64, sizeof_rtattr, round_up4. change (4 * ((4 + 3) / 4)) with 4.
  apply Z.mod_small. lia.
Qed.

Lemma round_up4_bounds (x : Z) : x <= round_up4 x < x + 4.
Proof. unfold round_up4. Z.div_mod_to_equations. lia. Qed.

Lemma round_up4_aligned (x : Z) : x mod 4 = 0 -> round_up4 x = x.
Proof. unfold round_up4. intros H. Z.div_mod_to_equations. lia. Qed.

Lemma round_up4_mod (x : Z) : round_up4 x mod 4 = 0.
Proof. unfold round_up4. Z.div_mod_to_equations. lia. Qed.

(** ** Loads and stores *)

Lemma store_bytes_out (m : memory) (off : Z) (bs : list byte) (a : Z) :
  a < off \/ off + Z.of_nat (List.length bs) <= a ->
  store_bytes m off bs a = m a.
Proof.
  intros H. unfold store_bytes.
  destruct (off <=? a) eqn:E1; destruct (a <? off + Z.of_nat (List.length bs)) eqn:E2;
    simpl; try reflexivity; lia.
Qed.

Lemma store_bytes_in (m : memory) (off : Z) (bs : list byte) (i : nat) :
  (i < List.length bs)%nat ->
  store_bytes m off bs (off + Z.of_nat i) = nth i bs Byte.x00.
Proof.
  intros H. unfold store_bytes.
  destruct (off <=? off + Z.of_nat i) eqn:E1;
    destruct (off + Z.of_nat i <? off + Z.of_nat (List.length bs)) eqn:E2;
    simpl; try lia.
  f_equal. lia.
Qed.

Lemma load_bytes_ext (m1 m2 : memory) (off : Z) (n : nat) :
  (forall a, off <= a < off + Z.of_nat n -> m1 a = m2 a) ->
  load_bytes m1 off n = load_bytes m2 off n.
Proof.
  intros H. unfold load_bytes. apply map_ext_in.
  intros i Hi. apply in_seq in Hi. apply H. lia.
Qed.

Lemma load_bytes_length (m : memory) (off : Z) (n : nat) :
  List.length (load_bytes m off n) = n.
Proof. unfold load_bytes. now rewrite length_map, length_seq. Qed.

Lemma load_bytes_nth (m : memory) (off : Z) (n i : nat) :
  (i < n)%nat -> nth i (load_bytes m off n) Byte.x00 = m (off + Z.of_nat i).
Proof.
  intros Hi. unfold load_bytes.
  rewrite nth_indep with (d' := m (off + Z.of_nat 0))
    by (now rewrite length_map, length_seq).
  rewrite (map_nth (fun i => m (off + Z.of_nat i)) (seq 0 n) 0%nat i).
  now rewrite seq_nth.
Qed.

Lemma load_bytes_store_bytes (m : memory) (off : Z) (bs : list byte) :
  load_bytes (store_bytes m off bs) off (List.length bs) = bs.
Proof.
  apply nth_ext with (d := Byte.x00) (d' := Byte.x00).
  - apply load_bytes_length.
  - intros i Hi. rewrite load_bytes_length in Hi.
    rewrite load_bytes_nth by assumption.
    now apply store_bytes_in.
Qed.

Lemma load_store_same (sz : nat) (m : memory) (off v : Z) :
  load sz (store sz m off v) off = v mod 2 ^ (Z.of_nat sz * 8).
Proof.
  unfold load, store.
  rewrite <- (length_le_split sz v) at 2.
  rewrite load_bytes_store_bytes. apply le_combine_split.
Qed.

Lemma load_store_bytes_other (sz : nat) (m : memory) (off : Z) (bs : list byte) (a : Z) :
  a + Z.of_nat sz <= off \/ off + Z.of_nat (List.length bs) <= a ->
  load sz (store_bytes m off bs) a = load sz m a.
Proof.
  intros H. unfold load. f_equal. apply load_bytes_ext.
  intros b Hb. apply store_bytes_out. lia.
Qed.

Lemma load_store_other (sz sz' : nat) (m : memory) (off v a : Z) :
  a + Z.of_nat sz <= off \/ off + Z.of_nat sz' <= a ->
  load sz (store sz' m off v) a = load sz m a.
Proof.
  intros H. unfold store. apply load_store_bytes_other.
  now rewrite length_le_split.
Qed.

Lemma load_range (sz : nat) (m : memory) (off : Z) :
  0 <= load sz m off < 2 ^ (8 * Z.of_nat sz).
Proof.
  unfold load. pose proof (le_combine_bound (load_bytes m off sz)) as H.
  now rewrite load_bytes_length in H.
Qed.

(** ** [rtattr_append] *)

Lemma firstn_all_Z {A : Type} (d : list A) :
  firstn (Z.to_nat (Z.of_nat (List.length d))) d = d.
Proof. rewrite Nat2Z.id. apply firstn_all. Qed.

Section Append.
Variables (m : memory) (attr : Z) (d : list byte).
Let len : Z := Z.of_nat (List.length d).
Let tail : Z := round_up4 (nlmsg_len m).

(** The message has at least its length field, and the sizes stay within
    32 bits. *)
Hypothesis Hlen : 4 <= nlmsg_len m.
Hypothesis Hsmall : nlmsg_len m + len + 10 < 2 ^ 32.

Lemma NLMSG_TAIL_eq : NLMSG_TAIL m = tail.
Proof.
  unfold NLMSG_TAIL, tail, len in *. apply NLMSG_ALIGN_eq. lia.
Qed.

Lemma append_unfold :
  rtattr_append m attr d len =
  store 4
    (store_bytes (store 2 (store 2 m (tail + 2) attr) tail (4 + len)) (tail + 4) d)
    0 (tail + round_up4 (4 + len)).
Proof.
  pose proof (round_up4_bounds (nlmsg_len m)) as Hb.
  assert (Hl : 0 <= len) by (unfold len; lia).
  unfold rtattr_append, set_rta_type, set_rta_len, memcpy, set_nlmsg_len, RTA_DATA.
  rewrite NLMSG_TAIL_eq, !RTA_LENGTH_eq by lia.
  unfold sizeof_rtattr. rewrite Z.add_0_r.
  replace (firstn (Z.to_nat len) d) with d by (symmetry; apply firstn_all_Z).
  f_equal. f_equal.
  - unfold nlmsg_len at 1.
    rewrite load_store_bytes_other by (fold len; fold tail; lia).
    rewrite !load_store_other by (fold tail; simpl; lia).
    fold (nlmsg_len m). apply NLMSG_ALIGN_eq. lia.
  - apply RTA_ALIGN_eq. lia.
Qed.

Lemma append_nlmsg_len :
  nlmsg_len (rtattr_append m attr d len) = tail + round_up4 (4 + len).
Proof.
  pose proof (round_up4_bounds (nlmsg_len m)) as Hb.
  pose proof (round_up4_bounds (4 + len)) as Hb'.
  assert (Hl : 0 <= len) by (unfold len; lia).
  rewrite append_unfold. unfold nlmsg_len at 1.
  rewrite load_store_same. apply Z.mod_small. fold tail in Hb.
  change (2 ^ (Z.of_nat 4 * 8)) with (2 ^ 32). lia.
Qed.

Lemma append_rta_len :
  rta_len (rtattr_append m attr d len) tail = u16 (4 + len).
Proof.
  pose proof (round_up4_bounds (nlmsg_len m)) as Hb. fold tail in Hb.
  rewrite append_unfold. unfold rta_len.
  rewrite load_store_other by (simpl; lia).
  rewrite load_store_bytes_other by (simpl; lia).
  apply load_store_same.
Qed.

Lemma append_rta_type :
  rta_type (rtattr_append m attr d len) tail = u16 attr.
Proof.
  pose proof (round_up4_bounds (nlmsg_len m)) as Hb. fold tail in Hb.
  rewrite append_unfold. unfold rta_type.
  rewrite load_store_other by (simpl; lia).
  rewrite load_store_bytes_other by (simpl; lia).
  rewrite load_store_other by (simpl; lia).
  apply load_store_same.
Qed.

Lemma append_payload :
  load_bytes (rtattr_append m attr d len) (tail + 4) (List.length d) = d.
Proof.
  pose proof (round_up4_bounds (nlmsg_len m)) as Hb. fold tail in Hb.
  rewrite append_unfold.
  etransitivity; [ | apply (load_bytes_store_bytes
                (store 2 (store 2 m (tail + 2) attr) tail (4 + len)) (tail + 4) d) ].
  apply load_bytes_ext. intros a Ha.
  unfold store at 1. apply store_bytes_out. simpl. lia.
Qed.

(** Only the length field of the header and the attribute's header and
    payload are written. *)
Lemma append_frame (a : Z) :
  4 <= a -> a < tail \/ tail + 4 + len <= a ->
  rtattr_append m attr d len a = m a.
Proof.
  pose proof (round_up4_bounds (nlmsg_len m)) as Hb. fold tail in Hb.
  intros Ha Hout. rewrite append_unfold. unfold store.
  rewrite !store_bytes_out; rewrite ?length_le_split; fold len; simpl; try lia.
  reflexivity.
Qed.
End Append.

(** ** Nested sequences of calls *)

Lemma nlop_ind (P : nlop -> Prop) :
  (forall attr d, P (op_append attr d)) ->
  (forall attr body, Forall P body -> P (op_nested attr body)) ->
  (forall n, P (op_reserve n)) ->
  forall o, P o.
Proof.
  intros Ha Hn Hr. fix IH 1. intros [attr d | attr body | n].
  - apply Ha.
  - apply Hn. induction body as [| o body IHb]; constructor.
    + apply IH.
    + apply IHb.
  - apply Hr.
Qed.

Lemma run_op_nested (attr : Z) (body : list nlop) (m : memory) :
  run_op (op_nested attr body) m =
  rtattr_end_nested (run_ops body (snd (rtattr_start_nested m attr)))
                    (fst (rtattr_start_nested m attr)).
Proof. reflexivity. Qed.

Lemma op_size_nested (attr : Z) (body : list nlop) :
  op_size (op_nested attr body) = sizeof_rtattr + ops_size body.
Proof. reflexivity. Qed.

Lemma op_ok_nested (attr : Z) (body : list nlop) :
  op_ok (op_nested attr body) <-> 0 <= attr < 2 ^ 16 /\ ops_ok body.
Proof. reflexivity. Qed.

Lemma encoded_nested (m0 m : memory) (off attr : Z) (body : list nlop) :
  encoded m0 m off (op_nested attr body) <->
  rta_type m off = attr /\
  rta_len m off = sizeof_rtattr + ops_size body /\
  encoded_list m0 m (off + sizeof_rtattr) body.
Proof. reflexivity. Qed.

Lemma ops_ok_Forall (os : list nlop) : ops_ok os <-> Forall op_ok os.
Proof.
  induction os as [| o os IH]; simpl.
  - split; auto.
  - rewrite IH. split.
    + intros [H1 H2]. now constructor.
    + intros H. inversion H. auto.
Qed.

Lemma op_size_facts (o : nlop) : op_ok o -> 0 <= op_size o /\ op_size o mod 4 = 0.
Proof.
  induction o as [attr d | attr body IH | n] using nlop_ind; intros Hok.
  - cbn [op_size].
    pose proof (round_up4_bounds (sizeof_rtattr + Z.of_nat (List.length d))).
    pose proof (round_up4_mod (sizeof_rtattr + Z.of_nat (List.length d))).
    unfold sizeof_rtattr in *. lia.
  - rewrite op_size_nested. apply op_ok_nested in Hok. destruct Hok as [_ Hok].
    unfold sizeof_rtattr.
    induction body as [| o body IHb]; cbn [ops_size].
    + split; [lia | reflexivity].
    + destruct Hok as [Ho Hb]. inversion IH as [| ? ? Hhd Htl]; subst.
      specialize (Hhd Ho). specialize (IHb Htl Hb).
      Z.div_mod_to_equations. lia.
  - cbn [op_size op_ok] in *. exact Hok.
Qed.

Lemma ops_size_facts (os : list nlop) :
  ops_ok os -> 0 <= ops_size os /\ ops_size os mod 4 = 0.
Proof.
  induction os as [| o os IH]; cbn [ops_size ops_ok].
  - intros _. split; [lia | reflexivity].
  - intros [Ho Hos]. pose proof (op_size_facts o Ho). specialize (IH Hos).
    Z.div_mod_to_equations. lia.
Qed.

Lemma RTA_LENGTH_0 : RTA_LENGTH 0 = 4.
Proof. reflexivity. Qed.

Lemma NLMSG_GOOD_SIZE_eq : NLMSG_GOOD_SIZE = 9216.
Proof. reflexivity. Qed.

Lemma load_ext (sz : nat) (m1 m2 : memory) (off : Z) :
  (forall a, off <= a < off + Z.of_nat sz -> m1 a = m2 a) ->
  load sz m1 off = load sz m2 off.
Proof. intros H. unfold load. f_equal. now apply load_bytes_ext. Qed.

Lemma rta_data_eq (m : memory) (off : Z) (n : nat) :
  rta_len m off = sizeof_rtattr + Z.of_nat n ->
  rta_data m off = load_bytes m (off + 4) n.
Proof.
  intros H. unfold rta_data, RTA_PAYLOAD, RTA_DATA.
  rewrite H, RTA_LENGTH_0. unfold sizeof_rtattr. f_equal. lia.
Qed.

Lemma encoded_ext (o : nlop) :
  op_ok o ->
  forall (m0 m0' m1 m2 : memory) (off : Z),
    (forall a, off <= a < off + op_size o -> m1 a = m2 a) ->
    (forall a, off <= a < off + op_size o -> m0 a = m0' a) ->
    encoded m0 m1 off o -> encoded m0' m2 off o.
Proof.
  induction o as [attr d | attr body IH | n] using nlop_ind;
    intros Hok m0 m0' m1 m2 off Hagree Hagree0.
  - cbn [encoded op_size] in *.
    pose proof (round_up4_bounds (sizeof_rtattr + Z.of_nat (List.length d))) as Hb.
    unfold sizeof_rtattr in *.
    intros (Ht & Hl & Hd).
    assert (Hl2 : rta_len m2 off = 4 + Z.of_nat (List.length d)).
    { rewrite <- Hl. unfold rta_len. symmetry. apply load_ext.
      intros a Ha. apply Hagree. simpl in Ha. lia. }
    split; [| split].
    + rewrite <- Ht. unfold rta_type. symmetry. apply load_ext.
      intros a Ha. apply Hagree. simpl in Ha. lia.
    + exact Hl2.
    + rewrite (rta_data_eq m2 off _ Hl2). rewrite (rta_data_eq m1 off _ Hl) in Hd.
      etransitivity; [| exact Hd]. symmetry. apply load_bytes_ext.
      intros a Ha. apply Hagree. lia.
  - rewrite !encoded_nested. rewrite op_size_nested in Hagree, Hagree0.
    apply op_ok_nested in Hok. destruct Hok as [_ Hok].
    pose proof (ops_size_facts body Hok) as [Hnn _].
    unfold sizeof_rtattr in *.
    intros (Ht & Hl & Hb).
    split; [| split].
    + rewrite <- Ht. unfold rta_type. symmetry. apply load_ext.
      intros a Ha. apply Hagree. simpl in Ha. lia.
    + rewrite <- Hl. unfold rta_len. symmetry. apply load_ext.
      intros a Ha. apply Hagree. simpl in Ha. lia.
    + assert (Hsub : forall a, off + 4 <= a < off + 4 + ops_size body -> m1 a = m2 a)
        by (intros a Ha; apply Hagree; lia).
      assert (Hsub0 : forall a, off + 4 <= a < off + 4 + ops_size body -> m0 a = m0' a)
        by (intros a Ha; apply Hagree0; lia).
      clear Hagree Hagree0 Ht Hl Hnn. revert Hsub Hsub0 Hb. generalize (off + 4).
      induction body as [| o body IHb]; intros off' Hsub Hsub0;
        cbn [encoded_list ops_size] in *.
      * trivial.
      * destruct Hok as [Ho Hos]. inversion IH as [| ? ? Hhd Htl]; subst.
        pose proof (op_size_facts o Ho) as [Hso _].
        pose proof (ops_size_facts body Hos) as [Hsb _].
        intros [He Hrest]. split.
        -- apply (Hhd Ho m0 m0' m1 m2 off'); [| | exact He].
           ++ intros a Ha. apply Hsub. lia.
           ++ intros a Ha. apply Hsub0. lia.
        -- apply (IHb Htl Hos (off' + op_size o)); [| | exact Hrest].
           ++ intros a Ha. apply Hsub. lia.
           ++ intros a Ha. apply Hsub0. lia.
  - cbn [encoded op_size] in *. intros H a Ha.
    rewrite <- Hagree, <- Hagree0 by lia. now apply H.
Qed.

Lemma encoded_list_ext (os : list nlop) :
  ops_ok os ->
  forall (m0 m0' m1 m2 : memory) (off : Z),
    (forall a, off <= a < off + ops_size os -> m1 a = m2 a) ->
    (forall a, off <= a < off + ops_size os -> m0 a = m0' a) ->
    encoded_list m0 m1 off os -> encoded_list m0' m2 off os.
Proof.
  induction os as [| o os IH]; cbn [encoded_list ops_size ops_ok].
  - trivial.
  - intros [Ho Hos] m0 m0' m1 m2 off Hagree Hagree0 [He Hrest].
    pose proof (op_size_facts o Ho) as [Hso _].
    pose proof (ops_size_facts os Hos) as [Hsb _].
    split.
    + apply (encoded_ext o Ho m0 m0' m1 m2 off); [| | exact He].
      * intros a Ha. apply Hagree. lia.
      * intros a Ha. apply Hagree0. lia.
    + apply (IH Hos m0 m0' m1 m2 (off + op_size o)); [| | exact Hrest].
      * intros a Ha. apply Hagree. lia.
      * intros a Ha. apply Hagree0. lia.
Qed.

Lemma u16_small (z : Z) : 0 <= z < 2 ^ 16 -> u16 z = z.
Proof. intros H. unfold u16. now apply Z.mod_small. Qed.

Lemma nlmsg_len_store_high (sz : nat) (m : memory) (off v : Z) :
  4 <= off -> nlmsg_len (store sz m off v) = nlmsg_len m.
Proof.
  intros H. unfold nlmsg_len. apply load_store_other. simpl. lia.
Qed.

Lemma set_nlmsg_len_len (m : memory) (v : Z) :
  0 <= v < 2 ^ 32 -> nlmsg_len (set_nlmsg_len m v) = v.
Proof.
  intros H. unfold nlmsg_len, set_nlmsg_len. rewrite load_store_same.
  now apply Z.mod_small.
Qed.

Lemma run_ops_spec_of (os : list nlop) :
  Forall run_spec os ->
  forall m : memory,
    ops_ok os ->
    4 <= nlmsg_len m -> nlmsg_len m mod 4 = 0 ->
    nlmsg_len m + ops_size os <= NLMSG_GOOD_SIZE ->
    nlmsg_len (run_ops os m) = nlmsg_len m + ops_size os /\
    encoded_list m (run_ops os m) (nlmsg_len m) os /\
    writes_within (nlmsg_len m) (nlmsg_len m + ops_size os) m (run_ops os m).
Proof.
  induction os as [| o os IH]; intros HF m Hok H4 Hal Hfit;
    cbn [run_ops ops_size encoded_list ops_ok] in *.
  - split; [lia | split; [trivial |]]. intros a _ _. reflexivity.
  - inversion HF as [| ? ? Ho HFos]; subst. destruct Hok as [Hoko Hokos].
    pose proof (op_size_facts o Hoko) as [Hso Hmo].
    pose proof (ops_size_facts os Hokos) as [Hsos Hmos].
    destruct (Ho m Hoko H4 Hal ltac:(lia)) as (Hlen1 & Henc1 & Hfr1).
    destruct (IH HFos (run_op o m) Hokos) as (Hlen2 & Henc2 & Hfr2).
    { lia. }
    { rewrite Hlen1. Z.div_mod_to_equations. lia. }
    { lia. }
    rewrite Hlen1 in *.
    split; [lia | split; [split |]].
    + apply (encoded_ext o Hoko m m (run_op o m)); [| | exact Henc1].
      * intros a Ha. symmetry. apply Hfr2; lia.
      * reflexivity.
    + apply (encoded_list_ext os Hokos (run_op o m) m (run_ops os (run_op o m)));
        [| | exact Henc2].
      * reflexivity.
      * intros a Ha. apply Hfr1; lia.
    + intros a Ha Hout. rewrite Hfr2 by lia. apply Hfr1; lia.
Qed.

Lemma run_op_spec (o : nlop) : run_spec o.
Proof.
  induction o as [attr d | attr body IH | n] using nlop_ind;
    intros m Hok H4 Hal Hfit; rewrite NLMSG_GOOD_SIZE_eq in Hfit.
  - (* rtattr_append *)
    cbn [run_op op_size encoded op_ok] in *. unfold sizeof_rtattr in *.
    pose proof (round_up4_bounds (4 + Z.of_nat (List.length d))) as Hb.
    pose proof (round_up4_aligned _ Hal) as Htail.
    assert (Hsmall : nlmsg_len m + Z.of_nat (List.length d) + 10 < 2 ^ 32) by lia.
    pose proof (append_nlmsg_len m attr d H4 Hsmall) as Hlen.
    pose proof (append_rta_len m attr d H4 Hsmall) as Hrl.
    pose proof (append_rta_type m attr d H4 Hsmall) as Hrt.
    pose proof (append_payload m attr d H4 Hsmall) as Hpl.
    rewrite Htail in *. rewrite u16_small in Hrl by lia. rewrite u16_small in Hrt by lia.
    split; [exact Hlen | split; [split; [exact Hrt | split; [exact Hrl |]] |]].
    + rewrite (rta_data_eq _ _ _ Hrl). exact Hpl.
    + intros a Ha Hout. pose proof (append_frame m attr d H4 Hsmall a Ha) as Hf.
      rewrite Htail in Hf. apply Hf. lia.
  - (* rtattr_start_nested ... rtattr_end_nested *)
    rewrite run_op_nested, encoded_nested, op_size_nested in *.
    apply op_ok_nested in Hok. destruct Hok as [Hattr Hokb].
    pose proof (ops_size_facts body Hokb) as [Hsb Hmb].
    unfold rtattr_start_nested, fst, snd. unfold sizeof_rtattr in *.
    pose proof (round_up4_aligned _ Hal) as Htail.
    assert (Hsmall : nlmsg_len m + Z.of_nat (@List.length byte []) + 10 < 2 ^ 32)
      by (simpl; lia).
    pose proof (append_nlmsg_len m attr [] H4 Hsmall) as Hlen1.
    pose proof (append_rta_type m attr [] H4 Hsmall) as Hrt1.
    pose proof (append_frame m attr [] H4 Hsmall) as Hfr1.
    pose proof (NLMSG_TAIL_eq m [] H4 Hsmall) as Htl1.
    rewrite Htail in *. cbn [List.length Z.of_nat] in *.
    change (round_up4 (4 + 0)) with 4 in Hlen1.
    rewrite u16_small in Hrt1 by lia. rewrite Htl1.
    set (m1 := rtattr_append m attr [] 0) in *.
    destruct (run_ops_spec_of body IH m1 Hokb) as (Hlen2 & Henc2 & Hfr2).
    { lia. }
    { rewrite Hlen1. Z.div_mod_to_equations. lia. }
    { rewrite NLMSG_GOOD_SIZE_eq. lia. }
    rewrite Hlen1 in *.
    set (m2 := run_ops body m1) in *.
    assert (Htl2 : NLMSG_TAIL m2 = nlmsg_len m2).
    { unfold NLMSG_TAIL. rewrite NLMSG_ALIGN_eq by lia.
      apply round_up4_aligned. rewrite Hlen2. Z.div_mod_to_equations. lia. }
    unfold rtattr_end_nested, set_rta_len. rewrite Htl2, Hlen2.
    split; [| split; [split; [| split] |]].
    + rewrite nlmsg_len_store_high by lia. lia.
    + unfold rta_type. rewrite load_store_other by (simpl; lia).
      rewrite <- Hrt1. unfold rta_type. apply load_ext.
      intros a Ha. simpl in Ha. apply Hfr2; lia.
    + unfold rta_len. rewrite load_store_same.
      change (2 ^ (Z.of_nat 2 * 8)) with (2 ^ 16). rewrite Z.mod_small; lia.
    + apply (encoded_list_ext body Hokb m1 m m2); [| | exact Henc2].
      * intros a Ha. symmetry. unfold store. apply store_bytes_out.
        rewrite length_le_split. simpl. lia.
      * intros a Ha. apply Hfr1; simpl; lia.
    + intros a Ha Hout. unfold store. rewrite store_bytes_out
        by (rewrite length_le_split; simpl; lia).
      rewrite Hfr2 by lia. apply Hfr1; simpl; lia.
  - (* req->hdr.nlmsg_len += n *)
    cbn [run_op op_size encoded op_ok] in *. destruct Hok as [Hn Hmod].
    split; [| split].
    + apply set_nlmsg_len_len. lia.
    + intros a Ha. unfold set_nlmsg_len, store. apply store_bytes_out.
      rewrite length_le_split. simpl. lia.
    + intros a Ha _. unfold set_nlmsg_len, store. apply store_bytes_out.
      rewrite length_le_split. simpl. lia.
Qed.

Lemma run_ops_spec (os : list nlop) (m : memory) :
  ops_ok os ->
  4 <= nlmsg_len m -> nlmsg_len m mod 4 = 0 ->
  nlmsg_len m + ops_size os <= NLMSG_GOOD_SIZE ->
  nlmsg_len (run_ops os m) = nlmsg_len m + ops_size os /\
  encoded_list m (run_ops os m) (nlmsg_len m) os /\
  writes_within (nlmsg_len m) (nlmsg_len m + ops_size os) m (run_ops os m).
Proof.
  apply run_ops_spec_of. apply Forall_forall. intros o _. apply run_op_spec.
Qed.

(** ** The message buffer: claims C2 to C5 *)

(** C3.  An attribute with a payload [d] of [L] bytes, appended to a message
    that has its header, whose total length is 4-byte aligned and in whose
    block the padded attribute fits: the stored length field is the
    attribute header size plus [L]; the [L] payload bytes stand unchanged
    right after the attribute header, and decoding the attribute by its
    length field returns exactly them; the total length has advanced by
    header size plus [L] rounded up to a multiple of 4, and is the offset one
    past the padded attribute. *)
Theorem rtattr_append_roundtrip (m : memory) (attr : Z) (d : list byte) :
  let L := Z.of_nat (List.length d) in
  let rta := nlmsg_len m in
  let m' := rtattr_append m attr d L in
  NLMSG_HDRLEN <= nlmsg_len m ->
  nlmsg_len m mod 4 = 0 ->
  nlmsg_len m + round_up4 (sizeof_rtattr + L) <= NLMSG_GOOD_SIZE ->
  rta_len m' rta = sizeof_rtattr + L /\
  load_bytes m' (rta + sizeof_rtattr) (List.length d) = d /\
  rta_data m' rta = d /\
  nlmsg_len m' = nlmsg_len m + round_up4 (sizeof_rtattr + L) /\
  nlmsg_len m' = rta + RTA_ALIGN (rta_len m' rta).
Proof.
  intros L rta m' Hhdr Hal Hfit. subst L rta m'.
  change NLMSG_HDRLEN with 16 in Hhdr. rewrite NLMSG_GOOD_SIZE_eq in Hfit.
  unfold sizeof_rtattr in *.
  pose proof (round_up4_bounds (4 + Z.of_nat (List.length d))) as Hb.
  pose proof (round_up4_aligned _ Hal) as Htail.
  assert (H4 : 4 <= nlmsg_len m) by lia.
  assert (Hsmall : nlmsg_len m + Z.of_nat (List.length d) + 10 < 2 ^ 32) by lia.
  pose proof (append_nlmsg_len m attr d H4 Hsmall) as Hlen.
  pose proof (append_rta_len m attr d H4 Hsmall) as Hrl.
  pose proof (append_payload m attr d H4 Hsmall) as Hpl.
  rewrite Htail in *. rewrite u16_small in Hrl by lia.
  repeat split.
  - exact Hrl.
  - exact Hpl.
  - rewrite (rta_data_eq _ _ _ Hrl). exact Hpl.
  - exact Hlen.
  - rewrite Hrl, RTA_ALIGN_eq by lia. exact Hlen.
Qed.

(** C2, as the code has it.  [rtattr_append] has no capacity check and no
    way to fail: on a message with its header and an aligned total length it
    writes the attribute at the tail and advances the total length by the
    padded size, whether or not that stays within [NLMSG_GOOD_SIZE]; it
    leaves everything from offset [NLMSG_GOOD_SIZE] on untouched when the
    padded attribute fits, which only its caller can see to. *)
Theorem rtattr_append_unguarded (m : memory) (attr : Z) (d : list byte) :
  let L := Z.of_nat (List.length d) in
  let m' := rtattr_append m attr d L in
  NLMSG_HDRLEN <= nlmsg_len m ->
  nlmsg_len m mod 4 = 0 ->
  nlmsg_len m + L + 10 < 2 ^ 32 ->
  nlmsg_len m' = nlmsg_len m + round_up4 (sizeof_rtattr + L) /\
  load_bytes m' (nlmsg_len m + sizeof_rtattr) (List.length d) = d /\
  (nlmsg_len m + round_up4 (sizeof_rtattr + L) <= NLMSG_GOOD_SIZE ->
   forall a, NLMSG_GOOD_SIZE <= a -> m' a = m a).
Proof.
  intros L m' Hhdr Hal Hsmall. subst L m'.
  change NLMSG_HDRLEN with 16 in Hhdr. rewrite NLMSG_GOOD_SIZE_eq.
  unfold sizeof_rtattr in *.
  pose proof (round_up4_bounds (4 + Z.of_nat (List.length d))) as Hb.
  pose proof (round_up4_aligned _ Hal) as Htail.
  assert (H4 : 4 <= nlmsg_len m) by lia.
  pose proof (append_nlmsg_len m attr d H4 Hsmall) as Hlen.
  pose proof (append_payload m attr d H4 Hsmall) as Hpl.
  pose proof (append_frame m attr d H4 Hsmall) as Hfr.
  rewrite Htail in *.
  repeat split.
  - exact Hlen.
  - exact Hpl.
  - intros Hfit a Ha. apply Hfr; lia.
Qed.

Lemma rtattr_append_roundtrip_witness :
  let m := if_up_req zero_block 1 in
  let d := cstring "wan" in
  (NLMSG_HDRLEN <= nlmsg_len m /\ nlmsg_len m mod 4 = 0 /\
   nlmsg_len m + round_up4 (sizeof_rtattr + 4) <= NLMSG_GOOD_SIZE) /\
  rta_len (rtattr_append m IFLA_IFNAME d 4) 32 = 8 /\
  rta_data (rtattr_append m IFLA_IFNAME d 4) 32 = d /\
  nlmsg_len (rtattr_append m IFLA_IFNAME d 4) = 40.
Proof.
  intros m d.
  assert (H1 : NLMSG_HDRLEN <= nlmsg_len m) by (vm_compute; discriminate).
  assert (H2 : nlmsg_len m mod 4 = 0) by reflexivity.
  assert (H3 : nlmsg_len m + round_up4 (sizeof_rtattr + 4) <= NLMSG_GOOD_SIZE)
    by (vm_compute; discriminate).
  destruct (rtattr_append_roundtrip m IFLA_IFNAME d H1 H2 H3) as (E1 & _ & E2 & E3 & _).
  repeat split; assumption.
Defined.

Lemma rtattr_append_unguarded_witness :
  let m := if_up_req zero_block 1 in
  (NLMSG_HDRLEN <= nlmsg_len m /\ nlmsg_len m mod 4 = 0 /\
   nlmsg_len m + 9200 + 10 < 2 ^ 32) /\
  nlmsg_len (rtattr_append m IFLA_IFNAME oversized 9200) = 9236.
Proof.
  intros m.
  assert (H1 : NLMSG_HDRLEN <= nlmsg_len m) by (vm_compute; discriminate).
  assert (H2 : nlmsg_len m mod 4 = 0) by reflexivity.
  assert (H3 : nlmsg_len m + Z.of_nat (List.length oversized) + 10 < 2 ^ 32)
    by (vm_compute; reflexivity).
  destruct (rtattr_append_unguarded m IFLA_IFNAME oversized H1 H2 H3) as (E1 & _).
  repeat split; assumption.
Defined.

(** C2, as stated, fails: appending 9200 bytes to the 32-byte bring-up
    message takes the total length to 9236, past [NLMSG_GOOD_SIZE]; the call
    returns like any other, and the byte one past the end of the block,
    zero before, holds payload afterwards. *)
Lemma rtattr_append_overflows :
  let m := if_up_req zero_block 1 in
  let m' := rtattr_append m IFLA_IFNAME oversized 9200 in
  nlmsg_len m = 32 /\
  nlmsg_len m' = 9236 /\ NLMSG_GOOD_SIZE < nlmsg_len m' /\
  m NLMSG_GOOD_SIZE = Byte.x00 /\ m' NLMSG_GOOD_SIZE = Byte.x41.
Proof. vm_compute. repeat split. Qed.

(** C4.  For a nested attribute opened by [rtattr_start_nested], filled by
    any properly nested sequence of calls (to any depth) and closed by
    [rtattr_end_nested], on a message with its header, an aligned total
    length and room for the whole: the cursor returned is the attribute's
    start offset, [rtattr_end_nested] leaves the total length as it is and
    writes into the attribute's length field the total length minus the
    cursor, which is the span of the attribute header and its content; the
    attributes nested inside keep their own spans. *)
Theorem rtattr_end_nested_span (m : memory) (attr : Z) (body : list nlop) :
  let cursor := fst (rtattr_start_nested m attr) in
  let m1 := snd (rtattr_start_nested m attr) in
  let m2 := run_ops body m1 in
  let m3 := rtattr_end_nested m2 cursor in
  0 <= attr < 2 ^ 16 -> ops_ok body ->
  NLMSG_HDRLEN <= nlmsg_len m ->
  nlmsg_len m mod 4 = 0 ->
  nlmsg_len m + sizeof_rtattr + ops_size body <= NLMSG_GOOD_SIZE ->
  cursor = nlmsg_len m /\
  rta_len m3 cursor = nlmsg_len m2 - cursor /\
  nlmsg_len m3 = nlmsg_len m2 /\
  nlmsg_len m2 - cursor = sizeof_rtattr + ops_size body /\
  encoded m m3 cursor (op_nested attr body).
Proof.
  intros cursor m1 m2 m3 Hattr Hok Hhdr Hal Hfit.
  change NLMSG_HDRLEN with 16 in Hhdr. rewrite NLMSG_GOOD_SIZE_eq in Hfit.
  unfold sizeof_rtattr in *.
  pose proof (ops_size_facts body Hok) as [Hsb _].
  assert (Hokn : op_ok (op_nested attr body)) by (apply op_ok_nested; auto).
  destruct (run_op_spec (op_nested attr body) m Hokn) as (Hlen & Henc & _);
    try rewrite op_size_nested; try rewrite NLMSG_GOOD_SIZE_eq;
    unfold sizeof_rtattr; try lia.
  rewrite run_op_nested in Hlen, Henc. fold cursor m1 m2 m3 in Hlen, Henc.
  rewrite op_size_nested in Hlen.
  assert (Hc : cursor = nlmsg_len m).
  { unfold cursor, rtattr_start_nested, fst, NLMSG_TAIL.
    rewrite NLMSG_ALIGN_eq by lia.
    now apply round_up4_aligned. }
  assert (Hlen3 : nlmsg_len m3 = nlmsg_len m2).
  { unfold m3, rtattr_end_nested, set_rta_len. apply nlmsg_len_store_high. lia. }
  rewrite <- Hc in Henc. pose proof Henc as Henc'.
  apply encoded_nested in Henc'. destruct Henc' as (_ & Hrl & _).
  unfold sizeof_rtattr in *.
  rewrite op_size_nested in Hrl. unfold sizeof_rtattr in Hrl.
  split; [exact Hc | split; [lia | split; [exact Hlen3 | split; [lia | exact Henc]]]].
Qed.

Lemma rtattr_end_nested_span_witness :
  let m := if_up_req zero_block 1 in
  let body := [ op_append IFLA_INFO_KIND (cstring "veth");
                op_nested IFLA_INFO_DATA [ veth_peer "pflask-42" ] ] in
  let cursor := fst (rtattr_start_nested m IFLA_LINKINFO) in
  let m2 := run_ops body (snd (rtattr_start_nested m IFLA_LINKINFO)) in
  (0 <= IFLA_LINKINFO < 2 ^ 16 /\ ops_ok body /\ NLMSG_HDRLEN <= nlmsg_len m /\
   nlmsg_len m mod 4 = 0 /\
   nlmsg_len m + sizeof_rtattr + ops_size body <= NLMSG_GOOD_SIZE) /\
  op_depth (op_nested IFLA_LINKINFO body) = 3%nat /\
  rta_len (rtattr_end_nested m2 cursor) cursor = nlmsg_len m2 - cursor.
Proof.
  intros m body cursor m2.
  assert (H0 : 0 <= IFLA_LINKINFO < 2 ^ 16) by (unfold IFLA_LINKINFO; lia).
  assert (H1 : ops_ok body) by (vm_compute; intuition (try discriminate)).
  assert (H2 : NLMSG_HDRLEN <= nlmsg_len m) by (vm_compute; discriminate).
  assert (H3 : nlmsg_len m mod 4 = 0) by reflexivity.
  assert (H4 : nlmsg_len m + sizeof_rtattr + ops_size body <= NLMSG_GOOD_SIZE)
    by (vm_compute; discriminate).
  destruct (rtattr_end_nested_span m IFLA_LINKINFO body H0 H1 H2 H3 H4)
    as (_ & E & _).
  split; [repeat split; assumption | split; [reflexivity | exact E]].
Defined.

(** ** The link-creation requests *)

Lemma length_list_byte_of_string (s : string) :
  List.length (list_byte_of_string s) = String.length s.
Proof.
  induction s as [| c s IH]; simpl.
  - reflexivity.
  - f_equal. exact IH.
Qed.

Lemma cstring_length (s : string) :
  Z.of_nat (List.length (cstring s)) = strlen s + 1.
Proof.
  unfold cstring, strlen. rewrite length_app, length_list_byte_of_string.
  simpl. lia.
Qed.

Lemma strlen_nonneg (s : string) : 0 <= strlen s.
Proof. unfold strlen. lia. Qed.

Lemma veth_ops_size (name_out name_in : string) :
  ops_size (veth_ops name_out name_in) =
  40 + round_up4 (sizeof_rtattr + (strlen name_in + 1)) +
  round_up4 (sizeof_rtattr + (strlen name_out + 1)).
Proof.
  cbn [ops_size op_size veth_ops veth_peer].
  change (round_up4 (sizeof_rtattr + Z.of_nat (List.length (cstring "veth")))) with 12.
  rewrite !cstring_length.
  unfold sizeof_rtattr, sizeof_ifinfomsg. lia.
Qed.

Lemma create_veth_pair_req_ops (req : memory) (name_out name_in : string) :
  create_veth_pair_req req name_out name_in =
  run_ops (veth_ops name_out name_in)
    (set_ifi_family
       (set_nlmsg_flags
          (set_nlmsg_len (set_nlmsg_type (set_nlmsg_seq req 1) RTM_NEWLINK)
             (NLMSG_LENGTH sizeof_ifinfomsg))
          (Z.lor (Z.lor (Z.lor NLM_F_REQUEST NLM_F_CREATE) NLM_F_EXCL) NLM_F_ACK))
       AF_UNSPEC).
Proof.
  unfold create_veth_pair_req.
  rewrite <- (cstring_length name_in), <- (cstring_length name_out).
  reflexivity.
Qed.

Lemma create_macvlan_req_ops (req : memory) (master : Z) (name : string) :
  create_macvlan_req req master name =
  run_ops (macvlan_ops master name)
    (set_ifi_family
       (set_nlmsg_flags
          (set_nlmsg_len (set_nlmsg_type (set_nlmsg_seq req 1) RTM_NEWLINK)
             (NLMSG_LENGTH sizeof_ifinfomsg))
          (Z.lor (Z.lor (Z.lor NLM_F_REQUEST NLM_F_CREATE) NLM_F_EXCL) NLM_F_ACK))
       AF_UNSPEC).
Proof.
  unfold create_macvlan_req.
  rewrite <- (cstring_length name).
  reflexivity.
Qed.

(** The header and body every request starts from: 32 bytes, the
    attributes come after. *)
Lemma header_nlmsg_len (req : memory) (flags family : Z) :
  nlmsg_len
    (set_ifi_family
       (set_nlmsg_flags
          (set_nlmsg_len (set_nlmsg_type (set_nlmsg_seq req 1) RTM_NEWLINK)
             (NLMSG_LENGTH sizeof_ifinfomsg))
          flags)
       family) = 32.
Proof.
  unfold set_ifi_family, set_nlmsg_flags.
  rewrite !nlmsg_len_store_high by (unfold msg_off, sizeof_nlmsghdr; lia).
  apply set_nlmsg_len_len. vm_compute. split; congruence.
Qed.

Lemma header_frame (req : memory) (flags family : Z) (a : Z) :
  32 <= a ->
  set_ifi_family
    (set_nlmsg_flags
       (set_nlmsg_len (set_nlmsg_type (set_nlmsg_seq req 1) RTM_NEWLINK)
          (NLMSG_LENGTH sizeof_ifinfomsg))
       flags)
    family a = req a.
Proof.
  intros Ha.
  unfold set_ifi_family, set_nlmsg_flags, set_nlmsg_len, set_nlmsg_type,
    set_nlmsg_seq, store, msg_off, sizeof_nlmsghdr.
  rewrite !store_bytes_out by (rewrite length_le_split; simpl; lia).
  reflexivity.
Qed.

Lemma veth_peer_size (name_in : string) :
  op_size (veth_peer name_in) =
  sizeof_rtattr + sizeof_ifinfomsg + round_up4 (sizeof_rtattr + (strlen name_in + 1)).
Proof.
  cbn [op_size veth_peer]. rewrite cstring_length.
  unfold sizeof_rtattr, sizeof_ifinfomsg. lia.
Qed.

Lemma veth_data_size (name_in : string) :
  op_size (op_nested IFLA_INFO_DATA [veth_peer name_in]) =
  sizeof_rtattr + op_size (veth_peer name_in).
Proof. rewrite op_size_nested. cbn [ops_size]. lia. Qed.

Lemma veth_info_size (name_in : string) :
  op_size (op_nested IFLA_LINKINFO
             [op_append IFLA_INFO_KIND (cstring "veth");
              op_nested IFLA_INFO_DATA [veth_peer name_in]]) =
  20 + op_size (veth_peer name_in).
Proof.
  rewrite op_size_nested. cbn [ops_size]. rewrite veth_data_size.
  change (op_size (op_append IFLA_INFO_KIND (cstring "veth"))) with 12.
  unfold sizeof_rtattr. lia.
Qed.

Lemma veth_ops_ok (name_out name_in : string) : ops_ok (veth_ops name_out name_in).
Proof.
  cbn. unfold IFLA_LINKINFO, IFLA_INFO_KIND, IFLA_INFO_DATA, VETH_INFO_PEER,
    IFLA_IFNAME, sizeof_ifinfomsg.
  repeat split; lia.
Qed.

Lemma macvlan_ops_ok (master : Z) (name : string) : ops_ok (macvlan_ops master name).
Proof.
  cbn. unfold IFLA_LINKINFO, IFLA_INFO_KIND, IFLA_LINK, IFLA_IFNAME.
  repeat split; lia.
Qed.

(** The attribute region of a link-creation request is the encoding of its
    call sequence, over the block as [malloc] returned it. *)
Lemma create_req_encoded (req0 : memory) (ops : list nlop) (flags : Z) :
  let hdr :=
    set_ifi_family
      (set_nlmsg_flags
         (set_nlmsg_len (set_nlmsg_type (set_nlmsg_seq req0 1) RTM_NEWLINK)
            (NLMSG_LENGTH sizeof_ifinfomsg))
         flags)
      AF_UNSPEC in
  ops_ok ops ->
  32 + ops_size ops <= NLMSG_GOOD_SIZE ->
  nlmsg_len (run_ops ops hdr) = 32 + ops_size ops /\
  encoded_list req0 (run_ops ops hdr) 32 ops.
Proof.
  intros hdr Hok Hfit.
  assert (Hlen : nlmsg_len hdr = 32) by apply header_nlmsg_len.
  destruct (run_ops_spec ops hdr Hok) as (Hl & Henc & _);
    try (rewrite Hlen; try lia; reflexivity).
  rewrite Hlen in *. split; [exact Hl |].
  apply (encoded_list_ext ops Hok hdr req0 (run_ops ops hdr) (run_ops ops hdr) 32);
    [reflexivity | | exact Henc].
  intros a Ha. apply header_frame. lia.
Qed.

(** X6.  The request [create_veth_pair] builds, when it fits its block: its
    attribute region encodes IFLA_LINKINFO holding the kind and
    IFLA_INFO_DATA, which holds VETH_INFO_PEER, followed by the outer
    IFLA_IFNAME.  The peer attribute starts at offset 52, inside
    IFLA_INFO_DATA (offset 48) inside IFLA_LINKINFO (offset 32); the 16 bytes
    after its header are the embedded [ifinfomsg], reserved by advancing the
    total length only (they hold what the block held); the peer's
    IFLA_IFNAME follows at offset 72; and the back-patched length of the
    peer attribute is its header, the embedded body and the padded name
    attribute together.  IFLA_LINKINFO of [create_macvlan] holds the kind
    attribute and nothing nested. *)
Theorem create_veth_pair_nesting (req0 : memory) (name_out name_in : string) :
  let req := create_veth_pair_req req0 name_out name_in in
  let name_len := round_up4 (sizeof_rtattr + (strlen name_in + 1)) in
  let peer_len := sizeof_rtattr + sizeof_ifinfomsg + name_len in
  32 + ops_size (veth_ops name_out name_in) <= NLMSG_GOOD_SIZE ->
  encoded_list req0 req 32 (veth_ops name_out name_in) /\
  (rta_type req 32 = IFLA_LINKINFO /\ rta_len req 32 = 20 + peer_len) /\
  (rta_type req 36 = IFLA_INFO_KIND /\ rta_data req 36 = cstring "veth") /\
  (rta_type req 48 = IFLA_INFO_DATA /\ rta_len req 48 = sizeof_rtattr + peer_len) /\
  (rta_type req 52 = VETH_INFO_PEER /\ rta_len req 52 = peer_len) /\
  (forall a, 56 <= a < 56 + sizeof_ifinfomsg -> req a = req0 a) /\
  (rta_type req 72 = IFLA_IFNAME /\
   rta_len req 72 = sizeof_rtattr + (strlen name_in + 1) /\
   rta_data req 72 = cstring name_in) /\
  (rta_type req (52 + peer_len) = IFLA_IFNAME /\
   rta_data req (52 + peer_len) = cstring name_out) /\
  nlmsg_len req = 52 + peer_len + round_up4 (sizeof_rtattr + (strlen name_out + 1)) /\
  (forall master name,
     32 + ops_size (macvlan_ops master name) <= NLMSG_GOOD_SIZE ->
     let req' := create_macvlan_req req0 master name in
     encoded_list req0 req' 32 (macvlan_ops master name) /\
     rta_type req' 32 = IFLA_LINKINFO /\
     rta_len req' 32 = sizeof_rtattr + round_up4 (sizeof_rtattr + 8) /\
     rta_type req' 36 = IFLA_INFO_KIND /\ rta_data req' 36 = cstring "macvlan").
Proof.
  intros req name_len peer_len Hfit.
  assert (Hpeer : op_size (veth_peer name_in) = peer_len) by apply veth_peer_size.
  unfold req. rewrite create_veth_pair_req_ops.
  destruct (create_req_encoded req0 (veth_ops name_out name_in)
              (Z.lor (Z.lor (Z.lor NLM_F_REQUEST NLM_F_CREATE) NLM_F_EXCL) NLM_F_ACK)
              (veth_ops_ok name_out name_in) Hfit) as (Hl & Henc).
  set (r := run_ops (veth_ops name_out name_in) _) in *.
  split; [exact Henc |].
  cbn [encoded_list encoded veth_ops] in Henc.
  destruct Henc as ((Hi_t & Hi_l & (Hk_t & Hk_l & Hk_d) & Hdata & _) & (Ho_t & Ho_l & Ho_d) & _).
  cbn [encoded_list encoded veth_peer] in Hdata.
  destruct Hdata as (Hd_t & Hd_l & (Hp_t & Hp_l & Hbody & (Hn_t & Hn_l & Hn_d) & _) & _).
  change (op_nested VETH_INFO_PEER
            [op_reserve sizeof_ifinfomsg; op_append IFLA_IFNAME (cstring name_in)])
    with (veth_peer name_in) in *.
  rewrite veth_info_size, Hpeer in Hi_l, Ho_t, Ho_l, Ho_d.
  rewrite veth_data_size, Hpeer in Hd_l. rewrite Hpeer in Hp_l.
  rewrite cstring_length in Hn_l.
  rewrite veth_ops_size in Hl.
  replace (32 + (20 + peer_len)) with (52 + peer_len) in Ho_t, Ho_d by lia.
  assert (Hbody' : forall a, 56 <= a < 56 + sizeof_ifinfomsg -> r a = req0 a)
    by exact Hbody.
  assert (Hl' : nlmsg_len r =
                52 + peer_len + round_up4 (sizeof_rtattr + (strlen name_out + 1)))
    by (rewrite Hl; subst peer_len name_len; unfold sizeof_rtattr, sizeof_ifinfomsg; lia).
  split; [split; [exact Hi_t | exact Hi_l] |].
  split; [split; [exact Hk_t | exact Hk_d] |].
  split; [split; [exact Hd_t | exact Hd_l] |].
  split; [split; [exact Hp_t | exact Hp_l] |].
  split; [exact Hbody' |].
  split; [split; [exact Hn_t | split; [exact Hn_l | exact Hn_d]] |].
  split; [split; [exact Ho_t | exact Ho_d] |].
  split; [exact Hl' |].
  - intros master name Hfit'. rewrite create_macvlan_req_ops.
    destruct (create_req_encoded req0 (macvlan_ops master name)
                (Z.lor (Z.lor (Z.lor NLM_F_REQUEST NLM_F_CREATE) NLM_F_EXCL) NLM_F_ACK)
                (macvlan_ops_ok master name) Hfit') as (_ & Henc').
    split; [exact Henc' |].
    cbn [encoded_list encoded macvlan_ops] in Henc'.
    destruct Henc' as ((Hi_t' & Hi_l' & (Hk_t' & _ & Hk_d') & _) & _).
    split; [exact Hi_t' | split; [exact Hi_l' | split; [exact Hk_t' | exact Hk_d']]].
Qed.

(** ** Programs: what they log and how they exit *)

Section Keeps.
Context {kernel : Type} {os : OS kernel}.
Variables (p : event -> Prop) (q : failure -> Prop).

Lemma keeps_ret {A : Type} (a : A) : keeps p q (ret a : M kernel A).
Proof.
  intros st. simpl. split; [reflexivity | split].
  - exists []. now rewrite app_nil_r.
  - discriminate.
Qed.

Lemma keeps_bind {A B : Type} (c : M kernel A) (k : A -> M kernel B) :
  keeps p q c -> (forall a, keeps p q (k a)) -> keeps p q (mbind c k).
Proof.
  intros Hc Hk st. unfold mbind.
  destruct (Hc st) as (Hn & (evs & Ht & Hp) & Hf).
  destruct (c st) as [[a | f] st1]; simpl in *.
  - destruct (Hk a st1) as (Hn' & (evs' & Ht' & Hp') & Hf').
    split; [congruence | split].
    + exists (evs ++ evs'). rewrite Ht', Ht, app_assoc. split; [reflexivity |].
      apply Forall_app. now split.
    + exact Hf'.
  - split; [exact Hn | split].
    + now exists evs.
    + intros f' [= <-]. now apply Hf.
Qed.

Lemma keeps_log (e : event) : p e -> keeps p q (log e : M kernel unit).
Proof.
  intros He st. simpl. split; [reflexivity | split].
  - exists [e]. split; [reflexivity | now constructor].
  - discriminate.
Qed.

Lemma keeps_with_kernel {A : Type} (f : kernel -> A * kernel) :
  keeps p q (with_kernel f).
Proof.
  intros st. unfold with_kernel. destruct (f (kern st)) as [a k]. simpl.
  split; [reflexivity | split].
  - exists []. now rewrite app_nil_r.
  - discriminate.
Qed.

Lemma keeps_ask_kernel {A : Type} (f : kernel -> A) : keeps p q (ask_kernel f).
Proof.
  intros st. simpl. split; [reflexivity | split].
  - exists []. now rewrite app_nil_r.
  - discriminate.
Qed.

Lemma keeps_fail_printf {A : Type} (msg : string) :
  q (fail_msg msg) -> keeps p q (fail_printf msg : M kernel A).
Proof.
  intros Hq st. simpl. split; [reflexivity | split].
  - exists []. now rewrite app_nil_r.
  - intros f [= <-]. exact Hq.
Qed.

Lemma keeps_sysf_printf {A : Type} (msg : string) :
  q (sysf_msg msg) -> keeps p q (sysf_printf msg : M kernel A).
Proof.
  intros Hq st. simpl. split; [reflexivity | split].
  - exists []. now rewrite app_nil_r.
  - intros f [= <-]. exact Hq.
Qed.

Lemma keeps_when (b : bool) (c : M kernel unit) :
  keeps p q c -> keeps p q (when b c).
Proof. intros Hc. destruct b; simpl; [exact Hc | apply keeps_ret]. Qed.
End Keeps.

Ltac keeps_step :=
  lazymatch goal with
  | |- keeps _ _ (ret _) => apply keeps_ret
  | |- keeps _ _ (mbind _ _) => apply keeps_bind; [| intros ?]
  | |- keeps _ _ (log _) => apply keeps_log
  | |- keeps _ _ (with_kernel _) => apply keeps_with_kernel
  | |- keeps _ _ (ask_kernel _) => apply keeps_ask_kernel
  | |- keeps _ _ (when _ _) => apply keeps_when
  | |- keeps _ _ (fail_printf _) => apply keeps_fail_printf
  | |- keeps _ _ (sysf_printf _) => apply keeps_sysf_printf
  end.

Ltac keeps_auto := repeat keeps_step.

Section Programs.
Context {kernel : Type} {os : OS kernel}.

Lemma keeps_weaken {A : Type} (p p' : event -> Prop) (q q' : failure -> Prop)
    (c : M kernel A) :
  (forall e, p e -> p' e) -> (forall f, q f -> q' f) ->
  keeps p q c -> keeps p' q' c.
Proof.
  intros Hp Hq Hc st. destruct (Hc st) as (Hn & (evs & Ht & Hf) & He).
  split; [exact Hn | split].
  - exists evs. split; [exact Ht |]. revert Hf. apply Forall_impl. exact Hp.
  - intros f Hx. apply Hq. now apply He.
Qed.

Lemma keeps_nl_open :
  keeps (fun e => session_event e = true) open_failure (nl_open : M kernel Z).
Proof.
  unfold nl_open, sys_socket, sys_bind. keeps_auto;
    try reflexivity; unfold open_failure; auto.
Qed.

Lemma keeps_sys_close (sock : Z) :
  keeps (fun e => session_event e = true) (fun _ => False)
    (sys_close sock : M kernel unit).
Proof. unfold sys_close. keeps_auto. reflexivity. Qed.

Lemma keeps_lookup (ifname : string) :
  keeps (fun e => exists i, e = ev_if_nametoindex ifname i) (fun _ => False)
    (sys_if_nametoindex ifname : M kernel Z).
Proof. unfold sys_if_nametoindex. keeps_auto. eauto. Qed.

Lemma keeps_check_reply (req : memory) :
  keeps (fun e => transfer_event e = true) exchange_failure
    (check_reply req : M kernel unit).
Proof.
  unfold check_reply.
  destruct (nlmsg_type req =? NLMSG_ERROR); [| apply keeps_ret].
  destruct (err_error req <? 0); [| apply keeps_ret].
  apply keeps_fail_printf. right. right. eexists. reflexivity.
Qed.

Lemma keeps_exchange (sock : Z) (req : memory) :
  keeps (fun e => transfer_event e = true) exchange_failure
    (exchange sock req : M kernel unit).
Proof.
  unfold exchange, nl_send, nl_recv, sys_sendmsg, sys_recvmsg.
  keeps_auto; try apply keeps_check_reply; try reflexivity;
    unfold exchange_failure; auto.
Qed.

Lemma call_unfold (sock : Z) (r : request) :
  call sock r =
  (log (request_event sock r) ;;
   req <- sys_malloc NLMSG_GOOD_SIZE ;;
   exchange sock (request_bytes req r))%prog.
Proof. destruct r; reflexivity. Qed.

Lemma keeps_call (sock : Z) (r : request) :
  keeps (fun e => e = request_event sock r \/ transfer_event e = true)
    exchange_failure (call sock r : M kernel unit).
Proof.
  rewrite call_unfold. unfold sys_malloc. keeps_auto; auto.
  eapply keeps_weaken; [| | apply keeps_exchange]; simpl; auto.
Qed.



(** A request function is the exchange of its reply followed by the test of
    the reply. *)
Lemma call_answered (sock : Z) (r : request) (st st' : state kernel)
    (reply : memory) :
  answered sock r st = Some (reply, st') ->
  call sock r st = check_reply reply st'.
Proof.
  rewrite call_unfold. unfold answered, exchange, mbind, log, sys_malloc, ask_kernel.
  simpl.
  destruct (nl_send sock _ _) as [[[] | f] st1]; [| discriminate].
  destruct (nl_recv sock _ st1) as [[reply' | f] st2]; [| discriminate].
  intros [= <- <-]. reflexivity.
Qed.

Lemma netif_loop_cons (sock pid : Z) (i : netif_list) (rest : list netif_list)
    (st : state kernel) :
  netif_loop sock pid (i :: rest) st =
  match netif_step sock pid i st with
  | (Done _, st') => netif_loop sock pid rest st'
  | (Exit f, st') => (Exit f, st')
  end.
Proof. reflexivity. Qed.

Lemma netif_step_resolved (sock pid : Z) (i : netif_list) (st st' : state kernel)
    (if_index : Z) :
  resolve_netif sock pid i st = (Done if_index, st') ->
  netif_step sock pid i st = move_and_rename_if sock pid if_index (name i) st'.
Proof. intros H. unfold netif_step, mbind. now rewrite H. Qed.

(** *** Name resolution *)

Lemma sys_if_nametoindex_run (ifname : string) (st : state kernel) :
  sys_if_nametoindex ifname st =
  (Done (if_nametoindex ifname (kern st)),
   logged st (ev_if_nametoindex ifname (if_nametoindex ifname (kern st)))).
Proof. reflexivity. Qed.

Lemma resolve_netif_MOVE (sock pid : Z) (i : netif_list) (st : state kernel) :
  type i = MOVE ->
  let if_index := if_nametoindex (dev i) (kern st) in
  let st' := logged st (ev_if_nametoindex (dev i) if_index) in
  resolve_netif sock pid i st =
  if if_index =? 0 then (Exit (InterfaceNotFound (dev i)), st')
  else (Done if_index, st').
Proof.
  intros Ht. unfold resolve_netif. rewrite Ht. unfold mbind.
  rewrite sys_if_nametoindex_run. cbv zeta.
  now destruct (if_nametoindex (dev i) (kern st) =? 0).
Qed.

Lemma resolve_netif_MACVLAN (sock pid : Z) (i : netif_list) (st : state kernel) :
  type i = MACVLAN ->
  let if_index := if_nametoindex (dev i) (kern st) in
  let st' := logged st (ev_if_nametoindex (dev i) if_index) in
  resolve_netif sock pid i st =
  if if_index =? 0 then (Exit (InterfaceNotFound (dev i)), st')
  else (create_macvlan sock if_index (asprintf_pflask pid) ;;
        sys_if_nametoindex (asprintf_pflask pid))%prog st'.
Proof.
  intros Ht. unfold resolve_netif. rewrite Ht. unfold mbind at 1.
  rewrite sys_if_nametoindex_run. cbv zeta.
  unfold mbind at 1.
  now destruct (if_nametoindex (dev i) (kern st) =? 0).
Qed.

Lemma resolve_netif_VETH (sock pid : Z) (i : netif_list) (st : state kernel) :
  type i = VETH ->
  resolve_netif sock pid i st =
  (create_veth_pair sock (dev i) (asprintf_pflask pid) ;;
   sys_if_nametoindex (asprintf_pflask pid))%prog st.
Proof. intros Ht. unfold resolve_netif. now rewrite Ht. Qed.

Lemma exchange_failure_not_search (f : failure) (d : string) :
  exchange_failure f -> f <> InterfaceNotFound d.
Proof.
  unfold InterfaceNotFound. intros [-> | [-> | [code ->]]]; discriminate.
Qed.

Lemma keeps_move_and_rename_if (sock pid if_index : Z) (new_name : string) :
  keeps (fun _ => True) exchange_failure
    (move_and_rename_if sock pid if_index new_name : M kernel unit).
Proof.
  eapply keeps_weaken;
    [| | exact (keeps_call sock (rq_move_and_rename_if pid if_index new_name))];
    auto.
Qed.

Lemma keeps_create_macvlan (sock master : Z) (name : string) :
  keeps (fun _ => True) exchange_failure
    (create_macvlan sock master name : M kernel unit).
Proof.
  eapply keeps_weaken;
    [| | exact (keeps_call sock (rq_create_macvlan master name))]; auto.
Qed.

Lemma keeps_create_veth_pair (sock : Z) (name_out name_in : string) :
  keeps (fun _ => True) exchange_failure
    (create_veth_pair sock name_out name_in : M kernel unit).
Proof.
  eapply keeps_weaken;
    [| | exact (keeps_call sock (rq_create_veth_pair name_out name_in))]; auto.
Qed.

Lemma keeps_sys_if_nametoindex (ifname : string) :
  keeps (fun _ => True) exchange_failure (sys_if_nametoindex ifname : M kernel Z).
Proof.
  eapply keeps_weaken; [| | exact (keeps_lookup ifname)]; simpl; tauto.
Qed.

(** One turn of the replay, by the type of the action. *)
Lemma netif_step_MOVE (sock pid : Z) (i : netif_list) (st : state kernel) :
  type i = MOVE ->
  let if_index := if_nametoindex (dev i) (kern st) in
  let st' := logged st (ev_if_nametoindex (dev i) if_index) in
  netif_step sock pid i st =
  if if_index =? 0 then (Exit (InterfaceNotFound (dev i)), st')
  else move_and_rename_if sock pid if_index (name i) st'.
Proof.
  intros Ht. unfold netif_step, mbind at 1.
  rewrite (resolve_netif_MOVE _ _ _ _ Ht). cbv zeta.
  now destruct (if_nametoindex (dev i) (kern st) =? 0).
Qed.

Lemma netif_step_MACVLAN (sock pid : Z) (i : netif_list) (st : state kernel) :
  type i = MACVLAN ->
  let if_index := if_nametoindex (dev i) (kern st) in
  let st' := logged st (ev_if_nametoindex (dev i) if_index) in
  netif_step sock pid i st =
  if if_index =? 0 then (Exit (InterfaceNotFound (dev i)), st')
  else (idx <- (create_macvlan sock if_index (asprintf_pflask pid) ;;
                sys_if_nametoindex (asprintf_pflask pid)) ;;
        move_and_rename_if sock pid idx (name i))%prog st'.
Proof.
  intros Ht. unfold netif_step, mbind at 1.
  rewrite (resolve_netif_MACVLAN _ _ _ _ Ht). cbv zeta.
  now destruct (if_nametoindex (dev i) (kern st) =? 0).
Qed.

Lemma netif_step_VETH (sock pid : Z) (i : netif_list) (st : state kernel) :
  type i = VETH ->
  netif_step sock pid i st =
  (idx <- (create_veth_pair sock (dev i) (asprintf_pflask pid) ;;
           sys_if_nametoindex (asprintf_pflask pid)) ;;
   move_and_rename_if sock pid idx (name i))%prog st.
Proof.
  intros Ht. unfold netif_step, mbind at 1.
  rewrite (resolve_netif_VETH _ _ _ _ Ht). reflexivity.
Qed.

Lemma keeps_created_then_move (c : M kernel unit) (sock pid : Z)
    (ifname new_name : string) :
  keeps (fun _ => True) exchange_failure c ->
  keeps (fun _ => True) exchange_failure
    (idx <- (c ;; sys_if_nametoindex ifname) ;;
     move_and_rename_if sock pid idx new_name)%prog.
Proof.
  intros Hc. apply keeps_bind.
  - apply keeps_bind; [exact Hc | intros _; apply keeps_sys_if_nametoindex].
  - intros idx. apply keeps_move_and_rename_if.
Qed.

Lemma not_search_failure {A : Type} (c : M kernel A) (st : state kernel) (d : string) :
  keeps (fun _ => True) exchange_failure c ->
  fst (c st) <> Exit (InterfaceNotFound d).
Proof.
  intros Hc Hx. destruct (Hc st) as (_ & _ & Hf).
  exact (exchange_failure_not_search _ d (Hf _ Hx) eq_refl).
Qed.

(** X12.  In one turn of the replay, the failure "Error searching for ..."
    is raised if and only if the action is a Move or a MacVlan and its
    source (the interface to move, the master) resolves to index 0 in the
    kernel as it is at that moment.  The resolution comes first: when it
    fails the turn, and the whole replay, end there with the lookup as their
    only event, and when it succeeds the lookup is the first event of the
    turn. *)
Theorem interface_not_found_iff (sock pid : Z) (i : netif_list) (st : state kernel) :
  let if_index := if_nametoindex (dev i) (kern st) in
  let looked := ev_if_nametoindex (dev i) if_index in
  ((exists d, fst (netif_step sock pid i st) = Exit (InterfaceNotFound d)) <->
   type i <> VETH /\ if_index = 0) /\
  (type i <> VETH -> if_index = 0 ->
   netif_step sock pid i st = (Exit (InterfaceNotFound (dev i)), logged st looked) /\
   forall rest,
     netif_loop sock pid (i :: rest) st =
     (Exit (InterfaceNotFound (dev i)), logged st looked)) /\
  (type i <> VETH ->
   exists evs, trace (snd (netif_step sock pid i st)) = trace st ++ looked :: evs).
Proof.
  intros if_index looked.
  assert (Hfail : type i <> VETH -> if_index = 0 ->
            netif_step sock pid i st =
            (Exit (InterfaceNotFound (dev i)), logged st looked)).
  { intros Ht H0. apply Z.eqb_eq in H0.
    destruct (type i) eqn:E; [ | | congruence].
    - rewrite (netif_step_MOVE _ _ _ _ E). cbv zeta. fold if_index looked.
      now rewrite H0.
    - rewrite (netif_step_MACVLAN _ _ _ _ E). cbv zeta. fold if_index looked.
      now rewrite H0. }
  split; [split | split].
  - intros [d Hd]. destruct (type i) eqn:E.
    + split; [discriminate |].
      destruct (Z.eq_dec if_index 0) as [H0 | Hn]; [exact H0 | exfalso].
      rewrite (netif_step_MOVE _ _ _ _ E) in Hd. cbv zeta in Hd.
      fold if_index looked in Hd. apply Z.eqb_neq in Hn. rewrite Hn in Hd.
      exact (not_search_failure _ _ d
               (keeps_move_and_rename_if sock pid if_index (name i)) Hd).
    + split; [discriminate |].
      destruct (Z.eq_dec if_index 0) as [H0 | Hn]; [exact H0 | exfalso].
      rewrite (netif_step_MACVLAN _ _ _ _ E) in Hd. cbv zeta in Hd.
      fold if_index looked in Hd. apply Z.eqb_neq in Hn. rewrite Hn in Hd.
      exact (not_search_failure _ _ d
               (keeps_created_then_move _ sock pid _ (name i)
                  (keeps_create_macvlan sock if_index (asprintf_pflask pid))) Hd).
    + exfalso. rewrite (netif_step_VETH _ _ _ _ E) in Hd.
      exact (not_search_failure _ _ d
               (keeps_created_then_move _ sock pid _ (name i)
                  (keeps_create_veth_pair sock (dev i) (asprintf_pflask pid))) Hd).
  - intros [Ht H0]. exists (dev i). now rewrite (Hfail Ht H0).
  - intros Ht H0. split; [now apply Hfail |].
    intros rest. rewrite netif_loop_cons. now rewrite (Hfail Ht H0).
  - intros Ht.
    destruct (type i) eqn:E; [ | | congruence].
    + rewrite (netif_step_MOVE _ _ _ _ E). cbv zeta. fold if_index looked.
      destruct (if_index =? 0).
      * exists []. reflexivity.
      * destruct (keeps_move_and_rename_if sock pid if_index (name i)
                    (logged st looked)) as (_ & (evs & Hevs & _) & _).
        exists evs. rewrite Hevs. simpl. now rewrite <- app_assoc.
    + rewrite (netif_step_MACVLAN _ _ _ _ E). cbv zeta. fold if_index looked.
      destruct (if_index =? 0).
      * exists []. reflexivity.
      * destruct (keeps_created_then_move _ sock pid (asprintf_pflask pid) (name i)
                    (keeps_create_macvlan sock if_index (asprintf_pflask pid))
                    (logged st looked)) as (_ & (evs & Hevs & _) & _).
        exists evs. rewrite Hevs. simpl. now rewrite <- app_assoc.
Qed.
(** *** The transient name *)

Lemma trace_logged (st : state kernel) (e : event) :
  trace (logged st e) = trace st ++ [e].
Proof. reflexivity. Qed.

Lemma move_and_rename_if_first_event (sock pid if_index : Z) (new_name : string)
    (st : state kernel) :
  exists evs,
    trace (snd (move_and_rename_if sock pid if_index new_name st)) =
    trace st ++ ev_move_and_rename_if sock pid if_index new_name :: evs /\
    Forall (fun e => transfer_event e = true) evs.
Proof.
  unfold move_and_rename_if. unfold mbind at 1. simpl.
  set (st1 := mk_state _ _ _).
  assert (Hk : keeps (fun e => transfer_event e = true) exchange_failure
                 (req <- sys_malloc NLMSG_GOOD_SIZE ;;
                  exchange sock (move_and_rename_if_req req pid if_index new_name)
                  : M kernel unit)%prog).
  { unfold sys_malloc. apply keeps_bind; [apply keeps_ask_kernel | intros req].
    apply keeps_exchange. }
  destruct (Hk st1) as (_ & (evs & Hevs & Hall) & _).
  exists evs. split; [| exact Hall].
  rewrite Hevs. unfold st1. simpl. now rewrite <- app_assoc.
Qed.

(** X7.  For a MacVlan or Veth action whose interface was created under
    the transient name "pflask-<pid>": the index that name then resolves to
    is handed to [move_and_rename_if] without a test.  When the lookup
    returns 0, the turn raises nothing at that point: it goes on as
    [move_and_rename_if] with index 0, the two events after the creation
    being the lookup with result 0 and the entry into [move_and_rename_if]
    with index 0; "Error searching for ..." is not the outcome. *)
Theorem transient_lookup_unchecked (sock pid : Z) (i : netif_list)
    (st st1 : state kernel) :
  let transient := asprintf_pflask pid in
  let master := if_nametoindex (dev i) (kern st) in
  let st2 := logged st1 (ev_if_nametoindex transient 0) in
  (type i = VETH /\
   create_veth_pair sock (dev i) transient st = (Done tt, st1)) \/
  (type i = MACVLAN /\ master <> 0 /\
   create_macvlan sock master transient
     (logged st (ev_if_nametoindex (dev i) master)) = (Done tt, st1)) ->
  if_nametoindex transient (kern st1) = 0 ->
  resolve_netif sock pid i st = (Done 0, st2) /\
  netif_step sock pid i st = move_and_rename_if sock pid 0 (name i) st2 /\
  (exists evs,
     trace (snd (netif_step sock pid i st)) =
     trace st1 ++ ev_if_nametoindex transient 0 ::
                  ev_move_and_rename_if sock pid 0 (name i) :: evs) /\
  (forall d, fst (netif_step sock pid i st) <> Exit (InterfaceNotFound d)).
Proof.
  intros transient master st2 Hcreated Hzero.
  assert (Hres : resolve_netif sock pid i st = (Done 0, st2)).
  { destruct Hcreated as [[Ht Hc] | (Ht & Hm & Hc)].
    - rewrite (resolve_netif_VETH _ _ _ _ Ht). fold transient.
      unfold mbind. rewrite Hc, sys_if_nametoindex_run, Hzero. reflexivity.
    - rewrite (resolve_netif_MACVLAN _ _ _ _ Ht). cbv zeta.
      fold master transient. apply Z.eqb_neq in Hm. rewrite Hm.
      unfold mbind. rewrite Hc, sys_if_nametoindex_run, Hzero. reflexivity. }
  assert (Hstep : netif_step sock pid i st =
                  move_and_rename_if sock pid 0 (name i) st2)
    by (apply netif_step_resolved; exact Hres).
  split; [exact Hres | split; [exact Hstep | split]].
  - rewrite Hstep.
    destruct (move_and_rename_if_first_event sock pid 0 (name i) st2)
      as (evs & Hevs & _).
    exists evs. rewrite Hevs. unfold st2. rewrite trace_logged, <- app_assoc.
    reflexivity.
  - intros d. rewrite Hstep.
    apply not_search_failure, keeps_move_and_rename_if.
Qed.
(** *** The pending list *)

Lemma reverse_netifs_spec (l i : list netif_list) :
  reverse_netifs l i = ([], rev l ++ i).
Proof.
  revert i. induction l as [| n l IH]; intros i; simpl.
  - reflexivity.
  - rewrite IH, <- app_assoc. reflexivity.
Qed.

Lemma add_netifs_run (acts : list netif_list) (st : state kernel) :
  add_netifs acts st =
  (Done tt, mk_state (kern st) (rev acts ++ netifs st) (trace st)).
Proof.
  revert st. induction acts as [| a acts IH]; intros st.
  - destruct st. reflexivity.
  - cbn [add_netifs]. unfold mbind at 1, add_netif, mbind, get_netifs, set_netifs.
    rewrite IH. simpl. destruct a. simpl. now rewrite <- app_assoc.
Qed.

Lemma flat_map_none {A : Type} (f : event -> list A) (evs : list event) :
  Forall (fun e => f e = []) evs -> flat_map f evs = [].
Proof.
  induction 1 as [| e evs He _ IH]; simpl.
  - reflexivity.
  - now rewrite He, IH.
Qed.

Lemma session_not_moved (e : event) : session_event e = true -> moved e = [].
Proof. now destruct e. Qed.

Lemma transfer_not_moved (e : event) : transfer_event e = true -> moved e = [].
Proof. now destruct e. Qed.

Lemma keeps_resolve_netif (sock pid : Z) (i : netif_list) :
  keeps (fun e => moved e = []) (fun _ => True)
    (resolve_netif sock pid i : M kernel Z).
Proof.
  assert (Hl : forall ifname,
             keeps (fun e => moved e = []) (fun _ => True)
               (sys_if_nametoindex ifname : M kernel Z)).
  { intros ifname. eapply keeps_weaken; [| | exact (keeps_lookup ifname)]; auto.
    intros e [idx ->]. reflexivity. }
  assert (Hc : forall r, (forall a b c, r <> rq_move_and_rename_if a b c) ->
             keeps (fun e => moved e = []) (fun _ => True)
               (call sock r : M kernel unit)).
  { intros r Hr. eapply keeps_weaken; [| | exact (keeps_call sock r)]; auto.
    intros e [-> | He]; [| now apply transfer_not_moved].
    destruct r; try reflexivity. now elim (Hr pid0 if_index new_name). }
  unfold resolve_netif. destruct (type i).
  - apply keeps_bind; [apply Hl | intros idx].
    apply keeps_bind; [| intros _; apply keeps_ret].
    apply keeps_when, keeps_sysf_printf. exact I.
  - apply keeps_bind; [apply Hl | intros idx].
    apply keeps_bind; [apply keeps_when, keeps_sysf_printf; exact I | intros _].
    apply keeps_bind; [| intros _; apply Hl].
    exact (Hc (rq_create_macvlan idx (asprintf_pflask pid)) ltac:(discriminate)).
  - apply keeps_bind; [| intros _; apply Hl].
    exact (Hc (rq_create_veth_pair (dev i) (asprintf_pflask pid)) ltac:(discriminate)).
Qed.

(** What one turn adds to the names handed to [move_and_rename_if]: the
    action's own, once, or nothing when the turn exits before the call. *)
Lemma netif_step_moved (sock pid : Z) (i : netif_list) (st : state kernel) :
  let r := netif_step sock pid i st in
  netifs (snd r) = netifs st /\
  (flat_map moved (trace (snd r)) = flat_map moved (trace st) ++ [(pid, name i)] \/
   flat_map moved (trace (snd r)) = flat_map moved (trace st) /\ fst r <> Done tt).
Proof.
  intros r. subst r. unfold netif_step, mbind.
  destruct (keeps_resolve_netif sock pid i st) as (Hn & (evs & Hevs & Hall) & _).
  destruct (resolve_netif sock pid i st) as [[idx | f] st1]; simpl in *.
  - destruct (keeps_move_and_rename_if sock pid idx (name i) st1) as (Hn' & _ & _).
    destruct (move_and_rename_if_first_event sock pid idx (name i) st1)
      as (evs' & Hevs' & Hall').
    split; [congruence | left].
    rewrite Hevs', Hevs, !flat_map_app. simpl.
    rewrite (flat_map_none moved evs Hall).
    rewrite (flat_map_none moved evs')
      by (revert Hall'; apply Forall_impl, transfer_not_moved).
    now rewrite !app_nil_r.
  - split; [exact Hn | right]. split; [| discriminate].
    rewrite Hevs, flat_map_app, (flat_map_none moved evs Hall).
    now rewrite app_nil_r.
Qed.

Lemma netif_loop_moved (sock pid : Z) (l : list netif_list) (st : state kernel) :
  let r := netif_loop sock pid l st in
  netifs (snd r) = netifs st /\
  exists k, (k <= List.length l)%nat /\
    flat_map moved (trace (snd r)) =
    flat_map moved (trace st) ++ map (fun a => (pid, name a)) (firstn k l) /\
    (fst r = Done tt -> k = List.length l).
Proof.
  revert st. induction l as [| i l IH]; intros st.
  - simpl. split; [reflexivity |]. exists 0%nat. simpl.
    rewrite app_nil_r. auto.
  - cbv zeta. rewrite netif_loop_cons.
    destruct (netif_step_moved sock pid i st) as (Hn & Hm).
    destruct (netif_step sock pid i st) as [[[] | f] st1]; simpl in *.
    + destruct Hm as [Hm | [_ Hm]]; [| congruence].
      destruct (IH st1) as (Hn' & k & Hk & Hmk & Hdone).
      split; [congruence |]. exists (S k). split; [lia |]. split.
      * rewrite Hmk, Hm, <- app_assoc. reflexivity.
      * intros Hd. now rewrite (Hdone Hd).
    + split; [exact Hn |]. destruct Hm as [Hm | [Hm _]].
      * exists 1%nat. split; [lia |]. split; [exact Hm | discriminate].
      * exists 0%nat. split; [lia |]. simpl. rewrite app_nil_r.
        split; [exact Hm | discriminate].
Qed.

Lemma do_netif_unfold (pid : Z) (st : state kernel) :
  do_netif pid st =
  (sock <- nl_open ;;
   set_netifs [] ;;
   netif_loop sock pid (rev (netifs st)) ;;
   sys_close sock)%prog st.
Proof.
  unfold do_netif, mbind.
  destruct (keeps_nl_open st) as (Hn & _ & _).
  destruct (nl_open st) as [[sock | f] st1]; [| reflexivity]. simpl in Hn.
  unfold get_netifs.
  rewrite reverse_netifs_spec, app_nil_r, Hn. reflexivity.
Qed.

Lemma do_netif_moved (pid : Z) (st : state kernel) :
  let r := do_netif pid st in
  exists k, (k <= List.length (netifs st))%nat /\
    flat_map moved (trace (snd r)) =
    flat_map moved (trace st) ++
    map (fun a => (pid, name a)) (firstn k (rev (netifs st))) /\
    (fst r = Done tt -> k = List.length (netifs st)).
Proof.
  cbv zeta. rewrite do_netif_unfold. unfold mbind, set_netifs.
  destruct (keeps_nl_open st) as (_ & (evs & Hevs & Hall) & _).
  destruct (nl_open st) as [[sock | f] st2]; simpl in Hevs.
  - set (st3 := mk_state (kern st2) [] (trace st2)).
    destruct (netif_loop_moved sock pid (rev (netifs st)) st3)
      as (_ & k & Hk & Hm & Hdone).
    rewrite length_rev in Hk, Hdone.
    assert (Hst3 : flat_map moved (trace st3) = flat_map moved (trace st)).
    { unfold st3. simpl. rewrite Hevs, flat_map_app.
      rewrite (flat_map_none moved evs)
        by (revert Hall; apply Forall_impl, session_not_moved).
      now rewrite app_nil_r. }
    rewrite Hst3 in Hm.
    destruct (netif_loop sock pid (rev (netifs st)) st3) as [[[] | f] st4];
      simpl in *.
    + exists k. split; [exact Hk | split; [| intros _; now apply Hdone]].
      rewrite flat_map_app. simpl. rewrite app_nil_r. exact Hm.
    + exists k. split; [exact Hk | split; [exact Hm | discriminate]].
  - simpl. exists 0%nat. simpl. split; [lia | split; [| discriminate]].
    rewrite Hevs, flat_map_app.
    rewrite (flat_map_none moved evs)
      by (revert Hall; apply Forall_impl, session_not_moved).
    reflexivity.
Qed.

(** X8.  Actions registered by [add_netif] on an empty pending list are
    replayed by [do_netif] first registered, first processed: the call is
    the session being opened, the pending list emptied, the turns taken on
    the actions in registration order, and the session closed.  The names
    handed to [move_and_rename_if], with the pid, are a prefix of the
    registered ones in registration order, and all of them, once each, when
    [do_netif] returns. *)
Theorem do_netif_fifo (acts : list netif_list) (pid : Z) (st : state kernel) :
  let st1 := snd (add_netifs acts st) in
  let r := do_netif pid st1 in
  netifs st = [] ->
  r = (sock <- nl_open ;;
       set_netifs [] ;;
       netif_loop sock pid acts ;;
       sys_close sock)%prog st1 /\
  (exists k, (k <= List.length acts)%nat /\
     flat_map moved (trace (snd r)) =
     flat_map moved (trace st) ++ map (fun a => (pid, name a)) (firstn k acts)) /\
  (fst r = Done tt ->
   flat_map moved (trace (snd r)) =
   flat_map moved (trace st) ++ map (fun a => (pid, name a)) acts).
Proof.
  intros st1 r Hempty. subst r st1.
  rewrite add_netifs_run. simpl snd. rewrite Hempty, app_nil_r.
  set (st1 := mk_state (kern st) (rev acts) (trace st)).
  split.
  - rewrite do_netif_unfold. unfold st1 at 1. simpl netifs.
    now rewrite rev_involutive.
  - destruct (do_netif_moved pid st1) as (k & Hk & Hm & Hdone).
    unfold st1 in Hk, Hm, Hdone at 2. simpl netifs in Hk, Hm, Hdone.
    rewrite rev_involutive in Hm. rewrite length_rev in Hk, Hdone.
    change (trace (mk_state (kern st) (rev acts) (trace st))) with (trace st) in Hm.
    split.
    + exists k. split; [exact Hk | exact Hm].
    + intros Hd. rewrite (Hdone Hd), firstn_all in Hm. exact Hm.
Qed.
Lemma sys_close_run (sock : Z) (st : state kernel) :
  sys_close sock st =
  (Done tt, mk_state (close sock (kern st)) (netifs st) (trace st ++ [ev_close sock])).
Proof. reflexivity. Qed.

(** X9.  When [do_netif] returns, the pending list is empty.  A further
    [do_netif] with nothing registered in between processes no action: it
    leaves the list empty and adds to the log only events of opening and
    closing its own session - no name is looked up, nothing is sent, no
    request function is entered. *)
Theorem do_netif_twice (pid pid' : Z) (st : state kernel) :
  let st1 := snd (do_netif pid st) in
  let st2 := snd (do_netif pid' st1) in
  fst (do_netif pid st) = Done tt ->
  netifs st1 = [] /\
  netifs st2 = [] /\
  (exists evs, trace st2 = trace st1 ++ evs /\
               Forall (fun e => session_event e = true) evs) /\
  flat_map looked_up (trace st2) = flat_map looked_up (trace st1) /\
  flat_map sent (trace st2) = flat_map sent (trace st1) /\
  flat_map moved (trace st2) = flat_map moved (trace st1).
Proof.
  intros st1 st2 Hdone.
  assert (H1 : netifs st1 = []).
  { subst st1. revert Hdone. rewrite do_netif_unfold. unfold mbind, set_netifs.
    destruct (nl_open st) as [[sock | f] st0]; [| discriminate].
    set (st3 := mk_state (kern st0) [] (trace st0)).
    destruct (netif_loop_moved sock pid (rev (netifs st)) st3) as (Hn & _).
    destruct (netif_loop sock pid (rev (netifs st)) st3) as [[[] | f] st4];
      [| discriminate].
    intros _. rewrite sys_close_run. exact Hn. }
  assert (H2 : netifs st2 = [] /\
               exists evs, trace st2 = trace st1 ++ evs /\
                           Forall (fun e => session_event e = true) evs).
  { subst st2. rewrite do_netif_unfold, H1. simpl rev. cbn [netif_loop].
    unfold mbind, set_netifs, ret.
    destruct (keeps_nl_open st1) as (Hn & (evs & Hevs & Hall) & _).
    destruct (nl_open st1) as [[sock | f] st0]; simpl in Hevs, Hn.
    - rewrite sys_close_run. simpl. split; [reflexivity |].
      exists (evs ++ [ev_close sock]). rewrite Hevs, app_assoc.
      split; [reflexivity |]. apply Forall_app. split; [exact Hall |].
      now constructor.
    - simpl. split; [congruence | now exists evs]. }
  destruct H2 as (H2 & evs & Hevs & Hall).
  split; [exact H1 | split; [exact H2 | split; [now exists evs |]]].
  rewrite Hevs, !flat_map_app.
  rewrite (flat_map_none looked_up evs), (flat_map_none sent evs),
    (flat_map_none moved evs);
    try (revert Hall; apply Forall_impl; intros e He; now destruct e).
  now rewrite !app_nil_r.
Qed.
(** *** One request, one datagram *)

Lemma exchange_sent (sock : Z) (req : memory) (st : state kernel) :
  flat_map sent (trace (snd (exchange sock req st))) =
  flat_map sent (trace st) ++ [load_bytes req 0 (Z.to_nat (nlmsg_len req))].
Proof.
  unfold exchange, nl_send, nl_recv, sys_sendmsg, sys_recvmsg, mbind, with_kernel,
    log, when, ret, sysf_printf.
  destruct (sendmsg sock _ (kern st)) as [rc k]. simpl.
  destruct (rc <? 0); simpl.
  - rewrite flat_map_app. reflexivity.
  - destruct (recvmsg sock (nlmsg_len req) k) as [[rc' data] k']. simpl.
    destruct (rc' <? 0); simpl.
    + rewrite !flat_map_app. simpl. now rewrite app_nil_r.
    + set (reply := store_bytes req 0 _).
      set (st' := mk_state k' _ _).
      assert (Hc : trace (snd (check_reply reply st')) = trace st').
      { unfold check_reply, fail_printf, ret.
        destruct (nlmsg_type reply =? NLMSG_ERROR); [| reflexivity].
        now destruct (err_error reply <? 0). }
      rewrite Hc. unfold st'. simpl. rewrite !flat_map_app. simpl.
      now rewrite app_nil_r.
Qed.

Lemma call_sent (sock : Z) (r : request) (st : state kernel) :
  let req := request_bytes (malloc NLMSG_GOOD_SIZE (kern st)) r in
  flat_map sent (trace (snd (call sock r st))) =
  flat_map sent (trace st) ++ [load_bytes req 0 (Z.to_nat (nlmsg_len req))].
Proof.
  cbv zeta. rewrite call_unfold. unfold mbind at 1. simpl.
  unfold mbind, sys_malloc, ask_kernel. simpl.
  rewrite exchange_sent. simpl. rewrite flat_map_app. simpl.
  assert (Hr : sent (request_event sock r) = []) by now destruct r.
  now rewrite Hr, !app_nil_r.
Qed.

(** *** The bring-up request *)

Ltac field_other := rewrite load_store_other by (simpl; lia).

Lemma if_up_req_fields (req : memory) (if_index : Z) :
  let req' := if_up_req req if_index in
  nlmsg_len req' = 32 /\
  nlmsg_type req' = RTM_NEWLINK /\
  nlmsg_flags req' = Z.lor NLM_F_REQUEST NLM_F_ACK /\
  nlmsg_seq req' = 1 /\
  ifi_family req' msg_off = AF_UNSPEC /\
  ifi_index req' msg_off = u32 if_index /\
  ifi_flags req' msg_off = IFF_UP /\
  ifi_change req' msg_off = IFF_UP.
Proof.
  cbv zeta.
  unfold if_up_req, set_ifi_change, set_ifi_flags, set_ifi_index, set_ifi_family,
    set_nlmsg_flags, set_nlmsg_len, set_nlmsg_type, set_nlmsg_seq,
    nlmsg_len, nlmsg_type, nlmsg_flags, nlmsg_seq,
    ifi_family, ifi_index, ifi_flags, ifi_change, msg_off, sizeof_nlmsghdr.
  repeat split; repeat field_other; rewrite load_store_same; reflexivity.
Qed.
Lemma session_not_sent (e : event) : session_event e = true -> sent e = [].
Proof. now destruct e. Qed.

Lemma session_not_looked_up (e : event) : session_event e = true -> looked_up e = [].
Proof. now destruct e. Qed.

Lemma transfer_not_looked_up (e : event) : transfer_event e = true -> looked_up e = [].
Proof. now destruct e. Qed.

Lemma keeps_setup_loopback :
  keeps (fun e => looked_up e = []) (fun f => open_failure f \/ exchange_failure f)
    (setup_loopback : M kernel unit).
Proof.
  unfold setup_loopback. apply keeps_bind; [| intros sock].
  - eapply keeps_weaken; [| | exact keeps_nl_open];
      [apply session_not_looked_up | auto].
  - apply keeps_bind; [| intros _].
    + eapply keeps_weaken; [| | exact (keeps_call sock (rq_if_up 1))]; [| auto].
      intros e [-> | He]; [reflexivity | now apply transfer_not_looked_up].
    + eapply keeps_weaken; [| | exact (keeps_sys_close sock)];
        [apply session_not_looked_up | intros f []].
Qed.

(** X10.  [setup_loopback] looks no name up and so never exits with "Error
    searching for ...".  When its session cannot be opened it sends
    nothing; when it can, it sends exactly one datagram, whatever follows:
    the 32 bytes of a request of type RTM_NEWLINK with flags
    NLM_F_REQUEST | NLM_F_ACK and sequence number 1, whose body has family
    AF_UNSPEC, interface index 1, flags IFF_UP and change mask IFF_UP. *)
Theorem setup_loopback_request (st : state kernel) :
  let r := setup_loopback st in
  flat_map looked_up (trace (snd r)) = flat_map looked_up (trace st) /\
  (forall d, fst r <> Exit (InterfaceNotFound d)) /\
  (forall f st0, nl_open st = (Exit f, st0) ->
     r = (Exit f, st0) /\
     flat_map sent (trace (snd r)) = flat_map sent (trace st)) /\
  (forall sock st0, nl_open st = (Done sock, st0) ->
     let req := if_up_req (malloc NLMSG_GOOD_SIZE (kern st0)) 1 in
     flat_map sent (trace (snd r)) =
     flat_map sent (trace st) ++ [load_bytes req 0 (Z.to_nat 32)] /\
     nlmsg_len req = 32 /\
     nlmsg_type req = RTM_NEWLINK /\
     nlmsg_flags req = Z.lor NLM_F_REQUEST NLM_F_ACK /\
     nlmsg_seq req = 1 /\
     ifi_family req msg_off = AF_UNSPEC /\
     ifi_index req msg_off = 1 /\
     ifi_flags req msg_off = IFF_UP /\
     ifi_change req msg_off = IFF_UP).
Proof.
  intros r.
  destruct (keeps_setup_loopback st) as (_ & (evs & Hevs & Hall) & Hf).
  fold r in Hevs, Hf.
  destruct (keeps_nl_open st) as (_ & (evs0 & Hevs0 & Hall0) & _).
  split; [| split; [| split]].
  - rewrite Hevs, flat_map_app, (flat_map_none looked_up evs Hall).
    now rewrite app_nil_r.
  - intros d Hd. destruct (Hf _ Hd) as [[Ho | Ho] | He].
    + discriminate Ho.
    + discriminate Ho.
    + exact (exchange_failure_not_search _ d He eq_refl).
  - intros f st0 Hopen.
    assert (Hr : r = (Exit f, st0))
      by (subst r; unfold setup_loopback, mbind at 1; now rewrite Hopen).
    rewrite Hopen in Hevs0. simpl in Hevs0.
    split; [exact Hr |]. rewrite Hr. simpl.
    rewrite Hevs0, flat_map_app.
    rewrite (flat_map_none sent evs0)
      by (revert Hall0; apply Forall_impl, session_not_sent).
    now rewrite app_nil_r.
  - intros sock st0 Hopen req.
    destruct (if_up_req_fields (malloc NLMSG_GOOD_SIZE (kern st0)) 1)
      as (Hlen & Hrest).
    fold req in Hlen, Hrest. split; [| split; [exact Hlen | exact Hrest]].
    assert (Hr : r = (if_up sock 1 ;; sys_close sock)%prog st0)
      by (subst r; unfold setup_loopback, mbind at 1; now rewrite Hopen).
    rewrite Hopen in Hevs0. simpl in Hevs0.
    pose proof (call_sent sock (rq_if_up 1) st0) as Hs. cbv zeta in Hs.
    change (request_bytes (malloc NLMSG_GOOD_SIZE (kern st0)) (rq_if_up 1))
      with req in Hs.
    rewrite Hlen in Hs. change (call sock (rq_if_up 1)) with (if_up sock 1) in Hs.
    rewrite Hr. unfold mbind.
    destruct (if_up sock 1 st0) as [[[] | f] st1]; simpl in *.
    + rewrite flat_map_app. simpl. rewrite app_nil_r, Hs, Hevs0, flat_map_app.
      rewrite (flat_map_none sent evs0)
        by (revert Hall0; apply Forall_impl, session_not_sent).
      now rewrite app_nil_r.
    + rewrite Hs, Hevs0, flat_map_app.
      rewrite (flat_map_none sent evs0)
        by (revert Hall0; apply Forall_impl, session_not_sent).
      now rewrite app_nil_r.
Qed.
End Programs.

(** ** More on the message buffer *)

(** X1.  A properly nested sequence of [rtattr_append],
    [rtattr_start_nested] ... [rtattr_end_nested] and reservations, run on
    a message that has its header, an aligned total length and room for the
    whole sequence, reads back as it was written: the total length has
    advanced by the size of the sequence, the attribute region from the old
    total length on decodes to the same sequence (types, lengths, payloads,
    every nested span), and nothing but the length field changed before the
    old total length or from the new one on. *)
Theorem nested_sequence_roundtrip (os : list nlop) (m : memory) :
  let m' := run_ops os m in
  ops_ok os ->
  NLMSG_HDRLEN <= nlmsg_len m ->
  nlmsg_len m mod 4 = 0 ->
  nlmsg_len m + ops_size os <= NLMSG_GOOD_SIZE ->
  nlmsg_len m' = nlmsg_len m + ops_size os /\
  encoded_list m m' (nlmsg_len m) os /\
  (forall a, 4 <= a < nlmsg_len m -> m' a = m a) /\
  (forall a, nlmsg_len m' <= a -> m' a = m a).
Proof.
  intros m' Hok Hhdr Hal Hfit. change NLMSG_HDRLEN with 16 in Hhdr.
  destruct (run_ops_spec os m Hok ltac:(lia) Hal Hfit) as (Hlen & Henc & Hfr).
  fold m' in Hlen, Henc, Hfr.
  pose proof (ops_size_facts os Hok) as [Hsz _].
  split; [exact Hlen | split; [exact Henc | split]].
  - intros a Ha. apply Hfr; lia.
  - intros a Ha. rewrite Hlen in Ha. apply Hfr; lia.
Qed.

Lemma nested_sequence_roundtrip_witness :
  let m := if_up_req zero_block 1 in
  let os := veth_ops "veth-out" "pflask-42" in
  (ops_ok os /\ NLMSG_HDRLEN <= nlmsg_len m /\ nlmsg_len m mod 4 = 0 /\
   nlmsg_len m + ops_size os <= NLMSG_GOOD_SIZE) /\
  nlmsg_len (run_ops os m) = 104 /\
  encoded_list m (run_ops os m) 32 os.
Proof.
  intros m os.
  assert (H1 : ops_ok os) by apply veth_ops_ok.
  assert (H2 : NLMSG_HDRLEN <= nlmsg_len m) by (vm_compute; discriminate).
  assert (H3 : nlmsg_len m mod 4 = 0) by reflexivity.
  assert (H4 : nlmsg_len m + ops_size os <= NLMSG_GOOD_SIZE)
    by (vm_compute; discriminate).
  destruct (nested_sequence_roundtrip os m H1 H2 H3 H4) as (E1 & E2 & _).
  split; [repeat split; assumption | split; [exact E1 | exact E2]].
Defined.

(** X2.  [rtattr_append] on any message that has at least its length
    field, with sizes within 32 bits - aligned or not, fitting its block or
    not: the attribute starts at the total length rounded up to a multiple
    of 4; its type and length fields are 16 bits wide, so they hold the
    attribute type and header size plus payload length modulo 65536; the
    payload stands after the header; the total length becomes the aligned
    start plus the padded size.  Nothing else changes: every other byte from
    offset 4 on keeps its value, the padding after the payload included. *)
Theorem rtattr_append_effect (m : memory) (attr : Z) (d : list byte) :
  let L := Z.of_nat (List.length d) in
  let rta := round_up4 (nlmsg_len m) in
  let m' := rtattr_append m attr d L in
  4 <= nlmsg_len m ->
  nlmsg_len m + L + 10 < 2 ^ 32 ->
  rta_type m' rta = attr mod 2 ^ 16 /\
  rta_len m' rta = (sizeof_rtattr + L) mod 2 ^ 16 /\
  load_bytes m' (rta + sizeof_rtattr) (List.length d) = d /\
  nlmsg_len m' = rta + round_up4 (sizeof_rtattr + L) /\
  (forall a, 4 <= a -> a < rta \/ rta + sizeof_rtattr + L <= a -> m' a = m a).
Proof.
  intros L rta m' H4 Hsmall. subst L rta m'.
  split; [exact (append_rta_type m attr d H4 Hsmall) |].
  split; [exact (append_rta_len m attr d H4 Hsmall) |].
  split; [exact (append_payload m attr d H4 Hsmall) |].
  split; [exact (append_nlmsg_len m attr d H4 Hsmall) |].
  exact (append_frame m attr d H4 Hsmall).
Qed.

Lemma rtattr_append_effect_witness :
  let m := set_nlmsg_len zero_block 33 in
  let d := repeat Byte.x41 (Z.to_nat 65533) in
  (4 <= nlmsg_len m /\ nlmsg_len m + 65533 + 10 < 2 ^ 32) /\
  rta_len (rtattr_append m IFLA_IFNAME d 65533) 36 = 1 /\
  nlmsg_len (rtattr_append m IFLA_IFNAME d 65533) = 36 + 65540.
Proof.
  intros m d.
  assert (H1 : 4 <= nlmsg_len m) by (vm_compute; discriminate).
  assert (H2 : nlmsg_len m + Z.of_nat (List.length d) + 10 < 2 ^ 32)
    by (vm_compute; reflexivity).
  destruct (rtattr_append_effect m IFLA_IFNAME d H1 H2) as (_ & E1 & _ & E2 & _).
  split; [split; [exact H1 | exact H2] | split; [exact E1 | exact E2]].
Defined.

Lemma NLMSG_TAIL_store_high (sz : nat) (m : memory) (off v : Z) :
  4 <= off -> NLMSG_TAIL (store sz m off v) = NLMSG_TAIL m.
Proof. intros H. unfold NLMSG_TAIL. now rewrite nlmsg_len_store_high. Qed.

(** X3.  [rtattr_end_nested] changes the two bytes of the length field at
    its cursor and nothing else, the total length least of all; so nested
    attributes that are closed at the same total length, as the three of
    [create_veth_pair] are, may be closed in any order: the message is the
    same byte for byte, and each length field holds the span from its
    cursor to the aligned end of the message. *)
Theorem rtattr_end_nested_order (m : memory) (c1 c2 : Z) :
  4 <= c1 -> 4 <= c2 -> c1 + 2 <= c2 \/ c2 + 2 <= c1 ->
  (forall a, rtattr_end_nested (rtattr_end_nested m c1) c2 a =
             rtattr_end_nested (rtattr_end_nested m c2) c1 a) /\
  (forall a, a < c1 \/ c1 + 2 <= a -> rtattr_end_nested m c1 a = m a) /\
  nlmsg_len (rtattr_end_nested (rtattr_end_nested m c1) c2) = nlmsg_len m /\
  rta_len (rtattr_end_nested (rtattr_end_nested m c1) c2) c1 =
    (NLMSG_TAIL m - c1) mod 2 ^ 16 /\
  rta_len (rtattr_end_nested (rtattr_end_nested m c1) c2) c2 =
    (NLMSG_TAIL m - c2) mod 2 ^ 16.
Proof.
  intros H1 H2 Hsep. unfold rtattr_end_nested, set_rta_len.
  rewrite !NLMSG_TAIL_store_high by assumption.
  split; [| split; [| split; [| split]]].
  - intros a. unfold store, store_bytes. rewrite !length_le_split.
    destruct (c2 <=? a) eqn:E1; destruct (a <? c2 + Z.of_nat 2) eqn:E2;
      destruct (c1 <=? a) eqn:E3; destruct (a <? c1 + Z.of_nat 2) eqn:E4;
      simpl; try reflexivity; exfalso; simpl in *; lia.
  - intros a Ha. unfold store. apply store_bytes_out.
    rewrite length_le_split. simpl. lia.
  - rewrite !nlmsg_len_store_high by assumption. reflexivity.
  - unfold rta_len. rewrite load_store_other by (simpl; lia).
    apply load_store_same.
  - unfold rta_len. apply load_store_same.
Qed.

Lemma rtattr_end_nested_order_witness :
  let m := create_veth_pair_req zero_block "veth-out" "pflask-42" in
  (4 <= 32 /\ 4 <= 48 /\ (32 + 2 <= 48 \/ 48 + 2 <= 32)) /\
  rta_len (rtattr_end_nested (rtattr_end_nested m 32) 48) 32 = 72 /\
  rta_len (rtattr_end_nested (rtattr_end_nested m 32) 48) 48 = 56.
Proof.
  intros m.
  assert (H1 : 4 <= 32) by lia. assert (H2 : 4 <= 48) by lia.
  assert (H3 : 32 + 2 <= 48 \/ 48 + 2 <= 32) by lia.
  destruct (rtattr_end_nested_order m 32 48 H1 H2 H3) as (_ & _ & _ & E1 & E2).
  split; [auto |]. split; [rewrite E1 | rewrite E2]; reflexivity.
Defined.

(** ** The four requests *)

(** The header every request starts from, field by field. *)
Lemma header_fields (req : memory) (flags family : Z) :
  let hdr :=
    set_ifi_family
      (set_nlmsg_flags
         (set_nlmsg_len (set_nlmsg_type (set_nlmsg_seq req 1) RTM_NEWLINK)
            (NLMSG_LENGTH sizeof_ifinfomsg))
         flags)
      family in
  nlmsg_type hdr = RTM_NEWLINK /\
  nlmsg_seq hdr = 1 /\
  nlmsg_flags hdr = flags mod 2 ^ 16 /\
  ifi_family hdr msg_off = family mod 2 ^ 8 /\
  (forall a, 12 <= a < 16 \/ 17 <= a -> hdr a = req a).
Proof.
  cbv zeta.
  unfold set_ifi_family, set_nlmsg_flags, set_nlmsg_len, set_nlmsg_type,
    set_nlmsg_seq, nlmsg_type, nlmsg_flags, nlmsg_seq, ifi_family, msg_off,
    sizeof_nlmsghdr.
  split; [| split; [| split; [| split]]].
  - repeat rewrite load_store_other by (simpl; lia).
    rewrite load_store_same. reflexivity.
  - repeat rewrite load_store_other by (simpl; lia).
    rewrite load_store_same. reflexivity.
  - repeat rewrite load_store_other by (simpl; lia).
    rewrite load_store_same. reflexivity.
  - rewrite load_store_same. reflexivity.
  - intros a Ha. unfold store.
    rewrite !store_bytes_out by (rewrite length_le_split; simpl; lia).
    reflexivity.
Qed.

(** Fields of the header and body survive what is written after them. *)
Lemma load_writes_within (sz : nat) (lo hi : Z) (m m' : memory) (a : Z) :
  writes_within lo hi m m' -> 4 <= a -> a + Z.of_nat sz <= lo ->
  load sz m' a = load sz m a.
Proof.
  intros Hw Ha Hlo. apply load_ext. intros b Hb. apply Hw; lia.
Qed.

Lemma request_ops_ok (r : request) : ops_ok (request_ops r).
Proof.
  destruct r; cbn [request_ops].
  - exact I.
  - cbn. unfold IFLA_NET_NS_PID, IFLA_IFNAME. repeat split; lia.
  - apply macvlan_ops_ok.
  - apply veth_ops_ok.
Qed.

Lemma request_bytes_ops (req0 : memory) (r : request) :
  exists hdr : memory,
    request_bytes req0 r = run_ops (request_ops r) hdr /\
    nlmsg_len hdr = 32 /\
    nlmsg_type hdr = RTM_NEWLINK /\
    nlmsg_seq hdr = 1 /\
    nlmsg_flags hdr = request_flags r /\
    ifi_family hdr msg_off = AF_UNSPEC /\
    (forall a, 12 <= a < 16 \/ 17 <= a < 20 \/ 32 <= a -> hdr a = req0 a) /\
    match r with
    | rq_if_up if_index =>
        ifi_index hdr msg_off = u32 if_index /\
        ifi_flags hdr msg_off = IFF_UP /\ ifi_change hdr msg_off = IFF_UP
    | rq_move_and_rename_if _ if_index _ =>
        ifi_index hdr msg_off = u32 if_index /\
        (forall a, 24 <= a < 32 -> hdr a = req0 a)
    | _ => forall a, 20 <= a < 32 -> hdr a = req0 a
    end.
Proof.
  destruct r as [if_index | pid if_index new_name | master name | name_out name_in].
  - exists (if_up_req req0 if_index). cbn [request_bytes request_ops run_ops].
    destruct (if_up_req_fields req0 if_index) as (H1 & H2 & H3 & H4 & H5 & H6 & H7 & H8).
    repeat (split; [assumption || reflexivity |]).
    split; [| auto].
    intros a Ha.
    unfold if_up_req, set_ifi_change, set_ifi_flags, set_ifi_index, msg_off,
      sizeof_nlmsghdr, store.
    rewrite !store_bytes_out by (rewrite length_le_split; simpl; lia).
    apply (header_fields req0 _ AF_UNSPEC). lia.
  - set (hdr := set_ifi_family
                  (set_nlmsg_flags
                     (set_nlmsg_len (set_nlmsg_type (set_nlmsg_seq req0 1) RTM_NEWLINK)
                        (NLMSG_LENGTH sizeof_ifinfomsg))
                     (Z.lor NLM_F_REQUEST NLM_F_ACK))
                  AF_UNSPEC).
    destruct (header_fields req0 (Z.lor NLM_F_REQUEST NLM_F_ACK) AF_UNSPEC)
      as (H2 & H3 & H4 & H5 & Hfr).
    fold hdr in H2, H3, H4, H5, Hfr.
    exists (set_ifi_index hdr if_index).
    unfold set_ifi_index, msg_off, sizeof_nlmsghdr.
    split; [| split; [| split; [| split; [| split; [| split; [| split; [| split]]]]]]].
    + unfold request_bytes, move_and_rename_if_req.
      rewrite <- (cstring_length new_name). reflexivity.
    + rewrite nlmsg_len_store_high by lia. apply header_nlmsg_len.
    + unfold nlmsg_type. rewrite load_store_other by (simpl; lia). exact H2.
    + unfold nlmsg_seq. rewrite load_store_other by (simpl; lia). exact H3.
    + unfold nlmsg_flags. rewrite load_store_other by (simpl; lia). exact H4.
    + unfold ifi_family, msg_off, sizeof_nlmsghdr.
      rewrite load_store_other by (simpl; lia). exact H5.
    + intros a Ha. unfold store.
      rewrite store_bytes_out by (rewrite length_le_split; simpl; lia).
      apply Hfr. lia.
    + unfold ifi_index, msg_off, sizeof_nlmsghdr. apply load_store_same.
    + intros a Ha. unfold store.
      rewrite store_bytes_out by (rewrite length_le_split; simpl; lia).
      apply Hfr. lia.
  - eexists. split; [apply create_macvlan_req_ops |].
    destruct (header_fields req0
                (Z.lor (Z.lor (Z.lor NLM_F_REQUEST NLM_F_CREATE) NLM_F_EXCL) NLM_F_ACK)
                AF_UNSPEC) as (H2 & H3 & H4 & H5 & Hfr).
    split; [apply header_nlmsg_len |].
    repeat (split; [assumption |]).
    split; intros a Ha; apply Hfr; lia.
  - eexists. split; [apply create_veth_pair_req_ops |].
    destruct (header_fields req0
                (Z.lor (Z.lor (Z.lor NLM_F_REQUEST NLM_F_CREATE) NLM_F_EXCL) NLM_F_ACK)
                AF_UNSPEC) as (H2 & H3 & H4 & H5 & Hfr).
    split; [apply header_nlmsg_len |].
    repeat (split; [assumption |]).
    split; intros a Ha; apply Hfr; lia.
Qed.

(** X4.  Each of the four requests, when its attributes fit the block, is
    a well-formed RTM_NEWLINK message whatever the block held before: total
    length 32 plus the size of its attributes, sequence number 1, flags
    NLM_F_REQUEST | NLM_F_ACK (with NLM_F_CREATE | NLM_F_EXCL for the two
    creations), family AF_UNSPEC, and an attribute region that decodes to
    the request's attribute sequence - pid then name for the move, link-info
    then link then name for macvlan, the nested link-info then name for
    veth. *)
Theorem request_layout (req0 : memory) (r : request) :
  let req := request_bytes req0 r in
  32 + ops_size (request_ops r) <= NLMSG_GOOD_SIZE ->
  nlmsg_len req = 32 + ops_size (request_ops r) /\
  nlmsg_type req = RTM_NEWLINK /\
  nlmsg_seq req = 1 /\
  nlmsg_flags req = request_flags r /\
  ifi_family req msg_off = AF_UNSPEC /\
  encoded_list req0 req 32 (request_ops r).
Proof.
  intros req Hfit.
  destruct (request_bytes_ops req0 r) as (hdr & Hreq & Hlen & Ht & Hs & Hf & Hfam & Hfr & _).
  subst req. rewrite Hreq.
  pose proof (request_ops_ok r) as Hok.
  destruct (run_ops_spec (request_ops r) hdr Hok) as (Hl & Henc & Hw);
    try (rewrite Hlen; try lia; reflexivity).
  rewrite Hlen in *.
  split; [exact Hl |].
  split; [unfold nlmsg_type; rewrite (load_writes_within _ _ _ _ _ _ Hw);
            [exact Ht | lia | simpl; lia] |].
  split; [unfold nlmsg_seq; rewrite (load_writes_within _ _ _ _ _ _ Hw);
            [exact Hs | lia | simpl; lia] |].
  split; [unfold nlmsg_flags; rewrite (load_writes_within _ _ _ _ _ _ Hw);
            [exact Hf | lia | simpl; lia] |].
  split; [unfold ifi_family, msg_off, sizeof_nlmsghdr;
          rewrite (load_writes_within _ _ _ _ _ _ Hw);
            [exact Hfam | lia | simpl; lia] |].
  apply (encoded_list_ext _ Hok hdr req0 (run_ops (request_ops r) hdr)
           (run_ops (request_ops r) hdr) 32);
    [reflexivity | | exact Henc].
  intros a Ha. apply Hfr. lia.
Qed.

Lemma request_layout_witness :
  let r := rq_move_and_rename_if 4242 2 "wan" in
  let req := request_bytes zero_block r in
  32 + ops_size (request_ops r) <= NLMSG_GOOD_SIZE /\
  nlmsg_len req = 48 /\
  encoded_list zero_block req 32
    [ op_append IFLA_NET_NS_PID (int_bytes 4242);
      op_append IFLA_IFNAME (cstring "wan") ].
Proof.
  intros r req.
  assert (H : 32 + ops_size (request_ops r) <= NLMSG_GOOD_SIZE)
    by (vm_compute; discriminate).
  destruct (request_layout zero_block r H) as (E1 & _ & _ & _ & _ & E2).
  split; [exact H | split; [exact E1 | exact E2]].
Defined.

(** X5.  What the request functions never write, so that it goes to the
    kernel as [malloc] returned it: in every request the header's
    [nlmsg_pid] and the body's padding byte and [ifi_type]; in the move
    request also [ifi_flags] and [ifi_change]; in the two creation requests
    the whole of [ifi_index], [ifi_flags] and [ifi_change] - the index of a
    creation request is whatever the block held.  Only the bring-up request
    fills its body. *)
Theorem request_unwritten (req0 : memory) (r : request) :
  let req := request_bytes req0 r in
  32 + ops_size (request_ops r) <= NLMSG_GOOD_SIZE ->
  (forall a, 12 <= a < 16 \/ 17 <= a < 20 -> req a = req0 a) /\
  match r with
  | rq_if_up if_index =>
      ifi_index req msg_off = u32 if_index /\
      ifi_flags req msg_off = IFF_UP /\ ifi_change req msg_off = IFF_UP
  | rq_move_and_rename_if _ if_index _ =>
      ifi_index req msg_off = u32 if_index /\
      (forall a, 24 <= a < 32 -> req a = req0 a)
  | _ => forall a, 20 <= a < 32 -> req a = req0 a
  end.
Proof.
  intros req Hfit.
  destruct (request_bytes_ops req0 r) as (hdr & Hreq & Hlen & _ & _ & _ & _ & Hfr & Hbody).
  subst req. rewrite Hreq.
  pose proof (request_ops_ok r) as Hok.
  destruct (run_ops_spec (request_ops r) hdr Hok) as (_ & _ & Hw);
    try (rewrite Hlen; try lia; reflexivity).
  rewrite Hlen in Hw.
  split.
  - intros a Ha. rewrite Hw by lia. apply Hfr. lia.
  - destruct r; unfold ifi_index, ifi_flags, ifi_change, msg_off, sizeof_nlmsghdr in *.
    + destruct Hbody as (H1 & H2 & H3).
      rewrite !(load_writes_within _ _ _ _ _ _ Hw) by (simpl; lia). auto.
    + destruct Hbody as (H1 & H2).
      rewrite (load_writes_within _ _ _ _ _ _ Hw) by (simpl; lia).
      split; [exact H1 |]. intros a Ha. rewrite Hw by lia. now apply H2.
    + intros a Ha. rewrite Hw by lia. now apply Hbody.
    + intros a Ha. rewrite Hw by lia. now apply Hbody.
Qed.

Lemma request_unwritten_witness :
  let req0 : memory := fun _ => Byte.xff in
  let r := rq_create_macvlan 2 "pflask-42" in
  32 + ops_size (request_ops r) <= NLMSG_GOOD_SIZE /\
  ifi_index (request_bytes req0 r) msg_off = 4294967295.
Proof.
  intros req0 r.
  assert (H : 32 + ops_size (request_ops r) <= NLMSG_GOOD_SIZE)
    by (vm_compute; discriminate).
  destruct (request_unwritten req0 r H) as (_ & E).
  split; [exact H |].
  unfold ifi_index, load. erewrite load_bytes_ext.
  - instantiate (1 := req0). reflexivity.
  - intros a Ha. apply E. unfold msg_off, sizeof_nlmsghdr in Ha. simpl in Ha. lia.
Defined.

(** ** More on the programs *)

Section MorePrograms.
Context {kernel : Type} {os : OS kernel}.

Lemma call_trace (sock : Z) (r : request) (st : state kernel) :
  exists evs,
    trace (snd (call sock r st)) = trace st ++ request_event sock r :: evs /\
    Forall (fun e => transfer_event e = true) evs.
Proof.
  rewrite call_unfold. unfold mbind at 1. simpl.
  set (st1 := mk_state _ _ _).
  assert (Hk : keeps (fun e => transfer_event e = true) exchange_failure
                 (req' <- sys_malloc NLMSG_GOOD_SIZE ;;
                  exchange sock (request_bytes req' r) : M kernel unit)%prog).
  { unfold sys_malloc. apply keeps_bind; [apply keeps_ask_kernel | intros req'].
    apply keeps_exchange. }
  destruct (Hk st1) as (_ & (evs & Hevs & Hall) & _).
  exists evs. split; [| exact Hall].
  rewrite Hevs. unfold st1. simpl. now rewrite <- app_assoc.
Qed.


(** X14.  A reply is taken as success unless it has the error kind and a
    negative code: a reply of any other kind, whatever it carries, and an
    error record with a zero or positive code both make the request function
    return, in the state right after the reply was received. *)
Theorem reply_accepted (sock : Z) (r : request) (st st' : state kernel)
    (reply : memory) :
  answered sock r st = Some (reply, st') ->
  nlmsg_type reply <> NLMSG_ERROR \/ 0 <= err_error reply ->
  call sock r st = (Done tt, st').
Proof.
  intros Hans Hok. rewrite (call_answered _ _ _ _ _ Hans).
  unfold check_reply. destruct Hok as [Hk | He].
  - apply Z.eqb_neq in Hk. now rewrite Hk.
  - apply Z.ltb_ge in He. rewrite He.
    now destruct (nlmsg_type reply =? NLMSG_ERROR).
Qed.

(** X15.  [nl_recv] receives over the request and asks for no more than
    the request's own length: when [recvmsg] succeeds, the block holds the
    received bytes from offset 0, cut to the request's [nlmsg_len], and
    behind them what the request had there; when it fails the exit is
    "recvmsg()".  Either way the only event is the one [recvmsg]. *)
Theorem nl_recv_effect (sock : Z) (nlmsg : memory) (st : state kernel) :
  let len := nlmsg_len nlmsg in
  let rc := fst (fst (recvmsg sock len (kern st))) in
  let data := snd (fst (recvmsg sock len (kern st))) in
  let n := Nat.min (Z.to_nat len) (List.length data) in
  let st' := mk_state (snd (recvmsg sock len (kern st))) (netifs st)
               (trace st ++ [ev_recvmsg sock len rc]) in
  (rc < 0 -> nl_recv sock nlmsg st = (Exit (sysf_msg "recvmsg()"), st')) /\
  (0 <= rc ->
   exists reply,
     nl_recv sock nlmsg st = (Done reply, st') /\
     load_bytes reply 0 n = firstn n data /\
     (forall a, a < 0 \/ Z.of_nat n <= a -> reply a = nlmsg a)).
Proof.
  intros len rc data n st'. subst rc data st'.
  unfold nl_recv, sys_recvmsg, mbind, with_kernel, log, when, ret, sysf_printf.
  fold len. destruct (recvmsg sock len (kern st)) as [[rc data] k]. simpl.
  split.
  - intros Hrc. apply Z.ltb_lt in Hrc. now rewrite Hrc.
  - intros Hrc. apply Z.ltb_ge in Hrc. rewrite Hrc.
    eexists. split; [reflexivity |].
    assert (Hlen : List.length (firstn (Z.to_nat len) data) = n)
      by (subst n; apply length_firstn).
    split.
    + rewrite <- Hlen at 1. rewrite load_bytes_store_bytes.
      subst n. destruct (Nat.le_ge_cases (Z.to_nat len) (List.length data)) as [Hle | Hge].
      * now rewrite Nat.min_l.
      * rewrite Nat.min_r by assumption.
        now rewrite firstn_all, firstn_all2.
    + intros a Ha. apply store_bytes_out. rewrite Hlen. lia.
Qed.

(** *** A turn that goes well *)

Lemma call_flat_map {A : Type} (f : event -> list A) (sock : Z) (r : request)
    (st : state kernel) :
  (forall e, transfer_event e = true -> f e = []) ->
  flat_map f (trace (snd (call sock r st))) =
  flat_map f (trace st) ++ f (request_event sock r).
Proof.
  intros Hf. destruct (call_trace sock r st) as (evs & Hevs & Hall).
  rewrite Hevs, flat_map_app. simpl.
  rewrite (flat_map_none f evs) by (revert Hall; apply Forall_impl, Hf).
  now rewrite app_nil_r.
Qed.

Lemma call_netifs (sock : Z) (r : request) (st : state kernel) :
  netifs (snd (call sock r st)) = netifs st.
Proof. exact (proj1 (keeps_call sock r st)). Qed.

(** The measures of the log after a request function returned, from those
    before it. *)
Lemma call_measures (sock : Z) (r : request) (st st' : state kernel)
    (o : outcome unit) :
  call sock r st = (o, st') ->
  flat_map looked_up (trace st') = flat_map looked_up (trace st) /\
  List.length (flat_map sent (trace st')) =
    S (List.length (flat_map sent (trace st))) /\
  flat_map moved (trace st') = flat_map moved (trace st) ++ moved (request_event sock r) /\
  netifs st' = netifs st.
Proof.
  intros Hc.
  pose proof (call_flat_map looked_up sock r st transfer_not_looked_up) as H1.
  pose proof (call_sent sock r st) as H2. cbv zeta in H2.
  pose proof (call_flat_map moved sock r st transfer_not_moved) as H3.
  pose proof (call_netifs sock r st) as H4.
  rewrite Hc in H1, H2, H3, H4. simpl in H1, H2, H3, H4.
  split; [| split; [| split; [exact H3 | exact H4]]].
  - rewrite H1. destruct r; simpl; now rewrite app_nil_r.
  - rewrite H2, length_app. simpl. lia.
Qed.

Lemma logged_measures (st : state kernel) (ifname : string) (idx : Z) :
  let st' := logged st (ev_if_nametoindex ifname idx) in
  flat_map looked_up (trace st') = flat_map looked_up (trace st) ++ [ifname] /\
  flat_map sent (trace st') = flat_map sent (trace st) /\
  flat_map moved (trace st') = flat_map moved (trace st) /\
  netifs st' = netifs st.
Proof.
  cbv zeta. unfold logged. simpl. rewrite !flat_map_app. simpl.
  now rewrite !app_nil_r.
Qed.

(** A turn of the replay that returns: the names it looked up, the
    datagrams it sent, its one entry into [move_and_rename_if]. *)
Lemma netif_step_measures (sock pid : Z) (i : netif_list) (st : state kernel) :
  let st' := snd (netif_step sock pid i st) in
  fst (netif_step sock pid i st) = Done tt ->
  flat_map looked_up (trace st') = flat_map looked_up (trace st) ++ lookups_of pid i /\
  List.length (flat_map sent (trace st')) =
    (List.length (flat_map sent (trace st)) + requests_of i)%nat /\
  flat_map moved (trace st') = flat_map moved (trace st) ++ [(pid, name i)] /\
  netifs st' = netifs st.
Proof.
  cbv zeta. unfold lookups_of, requests_of.
  destruct (type i) eqn:E.
  - rewrite (netif_step_MOVE _ _ _ _ E). cbv zeta.
    set (idx := if_nametoindex (dev i) (kern st)).
    destruct (logged_measures st (dev i) idx) as (L1 & L2 & L3 & L4).
    destruct (idx =? 0); [discriminate |].
    intros _.
    destruct (move_and_rename_if sock pid idx (name i) (logged st _))
      as [o s1] eqn:Hm.
    destruct (call_measures sock (rq_move_and_rename_if pid idx (name i)) _ _ _ Hm)
      as (M1 & M2 & M3 & M4).
    simpl. rewrite M1, M2, M3, M4, L1, L2, L3, L4.
    repeat split; try reflexivity. lia.
  - rewrite (netif_step_MACVLAN _ _ _ _ E). cbv zeta.
    set (idx := if_nametoindex (dev i) (kern st)).
    destruct (logged_measures st (dev i) idx) as (L1 & L2 & L3 & L4).
    destruct (idx =? 0); [discriminate |].
    unfold mbind.     destruct (create_macvlan sock idx (asprintf_pflask pid) (logged st _))
      as [[[] | f] s1] eqn:Hc; [| discriminate].
    destruct (call_measures sock (rq_create_macvlan idx (asprintf_pflask pid)) _ _ _ Hc)
      as (C1 & C2 & C3 & C4).
    rewrite sys_if_nametoindex_run.
    set (idx' := if_nametoindex (asprintf_pflask pid) (kern s1)).
    destruct (logged_measures s1 (asprintf_pflask pid) idx') as (K1 & K2 & K3 & K4).
    intros _.
    destruct (move_and_rename_if sock pid idx' (name i) (logged s1 _))
      as [o s2] eqn:Hm.
    destruct (call_measures sock (rq_move_and_rename_if pid idx' (name i)) _ _ _ Hm)
      as (M1 & M2 & M3 & M4).
    simpl. rewrite M1, M2, M3, M4, K1, K2, K3, K4, C1, C2, C3, C4, L1, L2, L3, L4.
    simpl. rewrite app_nil_r, <- app_assoc.
    repeat split; try reflexivity. lia.
  - rewrite (netif_step_VETH _ _ _ _ E).
    unfold mbind.
    destruct (create_veth_pair sock (dev i) (asprintf_pflask pid) st)
      as [[[] | f] s1] eqn:Hc; [| discriminate].
    destruct (call_measures sock (rq_create_veth_pair (dev i) (asprintf_pflask pid))
                _ _ _ Hc) as (C1 & C2 & C3 & C4).
    rewrite sys_if_nametoindex_run.
    set (idx' := if_nametoindex (asprintf_pflask pid) (kern s1)).
    destruct (logged_measures s1 (asprintf_pflask pid) idx') as (K1 & K2 & K3 & K4).
    intros _.
    destruct (move_and_rename_if sock pid idx' (name i) (logged s1 _))
      as [o s2] eqn:Hm.
    destruct (call_measures sock (rq_move_and_rename_if pid idx' (name i)) _ _ _ Hm)
      as (M1 & M2 & M3 & M4).
    simpl. rewrite M1, M2, M3, M4, K1, K2, K3, K4, C1, C2, C3, C4.
    simpl. rewrite app_nil_r.
    repeat split; try reflexivity. lia.
Qed.
Lemma netif_loop_measures (sock pid : Z) (l : list netif_list) (st : state kernel) :
  let st' := snd (netif_loop sock pid l st) in
  fst (netif_loop sock pid l st) = Done tt ->
  flat_map looked_up (trace st') =
    flat_map looked_up (trace st) ++ flat_map (lookups_of pid) l /\
  List.length (flat_map sent (trace st')) =
    (List.length (flat_map sent (trace st)) + list_sum (map requests_of l))%nat /\
  netifs st' = netifs st.
Proof.
  revert st. induction l as [| i l IH]; intros st; cbv zeta.
  - simpl. intros _. rewrite app_nil_r. repeat split. lia.
  - rewrite netif_loop_cons.
    pose proof (netif_step_measures sock pid i st) as Hs. cbv zeta in Hs.
    destruct (netif_step sock pid i st) as [[[] | f] s1]; [| discriminate].
    destruct (Hs eq_refl) as (S1 & S2 & _ & S4). simpl in S1, S2, S4.
    intros Hd. destruct (IH s1 Hd) as (I1 & I2 & I3).
    rewrite I1, I2, I3, S1, S2, S4. simpl.
    rewrite <- app_assoc. repeat split. lia.
Qed.

(** X16.  A replay that returns has done, for the actions in registration
    order, exactly this: looked up the source of each Move, the master and
    then the transient name of each MacVlan and the transient name of each
    Veth, in that order and nothing else; sent one datagram per Move and two
    per MacVlan or Veth, and no other. *)
Theorem do_netif_done (pid : Z) (st : state kernel) :
  let st' := snd (do_netif pid st) in
  let acts := rev (netifs st) in
  fst (do_netif pid st) = Done tt ->
  flat_map looked_up (trace st') =
    flat_map looked_up (trace st) ++ flat_map (lookups_of pid) acts /\
  List.length (flat_map sent (trace st')) =
    (List.length (flat_map sent (trace st)) + list_sum (map requests_of acts))%nat.
Proof.
  cbv zeta. rewrite do_netif_unfold. unfold mbind, set_netifs.
  destruct (keeps_nl_open st) as (_ & (evs & Hevs & Hall) & _).
  destruct (nl_open st) as [[sock | f] s0]; [| discriminate]. simpl in Hevs.
  set (s1 := mk_state (kern s0) [] (trace s0)).
  pose proof (netif_loop_measures sock pid (rev (netifs st)) s1) as Hl.
  cbv zeta in Hl.
  destruct (netif_loop sock pid (rev (netifs st)) s1) as [[[] | f] s2];
    [| discriminate].
  destruct (Hl eq_refl) as (L1 & L2 & _). simpl in L1, L2.
  intros _. rewrite sys_close_run. simpl.
  rewrite !flat_map_app. simpl. rewrite !app_nil_r, L1, L2, Hevs, !flat_map_app.
  rewrite (flat_map_none looked_up evs), (flat_map_none sent evs);
    try (revert Hall; apply Forall_impl; intros e He; now destruct e).
  rewrite !app_nil_r. split; reflexivity.
Qed.

(** *** How the replay can fail *)





(** X19.  [nl_open] returns only a descriptor that [socket] gave as
    non-negative and that [bind] accepted, bound to the id of the calling
    process, and then its events are the [socket] and the [bind], in that
    order.  When [socket] fails the exit is "socket()" and [bind] is not
    attempted; when [bind] fails the exit is "bind()".  The pending list is
    not touched. *)
Theorem nl_open_session (st : state kernel) :
  let res := nl_open st in
  let sock := fst (socket (kern st)) in
  let k1 := snd (socket (kern st)) in
  let rc := fst (bind sock (getpid k1) k1) in
  netifs (snd res) = netifs st /\
  (sock < 0 ->
   fst res = Exit (sysf_msg "socket()") /\
   trace (snd res) = trace st ++ [ev_socket sock]) /\
  (0 <= sock -> rc < 0 ->
   fst res = Exit (sysf_msg "bind()") /\
   trace (snd res) = trace st ++ [ev_socket sock; ev_bind sock (getpid k1) rc]) /\
  (forall s, fst res = Done s ->
   s = sock /\ 0 <= sock /\ 0 <= rc /\
   trace (snd res) = trace st ++ [ev_socket sock; ev_bind sock (getpid k1) rc]).
Proof.
  cbv zeta.
  unfold nl_open, sys_socket, sys_bind, mbind, with_kernel, ask_kernel, log, when,
    ret, sysf_printf.
  destruct (socket (kern st)) as [sock k1]. simpl.
  destruct (sock <? 0) eqn:Es; simpl.
  - apply Z.ltb_lt in Es.
    split; [reflexivity | split; [auto | split; [lia | discriminate]]].
  - apply Z.ltb_ge in Es.
    destruct (bind sock (getpid k1) k1) as [rc k2]. simpl.
    destruct (rc <? 0) eqn:Eb; simpl.
    + apply Z.ltb_lt in Eb.
      split; [reflexivity | split; [lia | split; [| discriminate]]].
      intros _ _. rewrite <- app_assoc. auto.
    + apply Z.ltb_ge in Eb.
      split; [reflexivity | split; [lia | split; [lia |]]].
      intros s [= <-]. rewrite <- app_assoc. auto.
Qed.
End MorePrograms.

(** X20.  [move_and_rename_if] puts no bound on the name it is given: for
    a name of 9172 characters or more the request it builds is longer than
    its block of [NLMSG_GOOD_SIZE] bytes - total length 40 plus the padded
    name attribute - with the name copied in full from offset 44 on, past
    the end of the block. *)
Theorem move_and_rename_if_overrun (req0 : memory) (pid if_index : Z)
    (new_name : string) :
  let req := move_and_rename_if_req req0 pid if_index new_name in
  NLMSG_GOOD_SIZE - 44 <= strlen new_name ->
  strlen new_name + 100 < 2 ^ 32 ->
  nlmsg_len req = 40 + round_up4 (sizeof_rtattr + (strlen new_name + 1)) /\
  NLMSG_GOOD_SIZE < nlmsg_len req /\
  load_bytes req 44 (List.length (cstring new_name)) = cstring new_name /\
  NLMSG_GOOD_SIZE < 44 + Z.of_nat (List.length (cstring new_name)).
Proof.
  intros req Hlong Hsmall. rewrite NLMSG_GOOD_SIZE_eq in *.
  destruct (request_bytes_ops req0 (rq_move_and_rename_if pid if_index new_name))
    as (hdr & Hreq & Hlen & _).
  cbn [request_bytes request_ops run_ops run_op] in Hreq.
  subst req. rewrite Hreq. clear Hreq.
  set (m1 := rtattr_append hdr IFLA_NET_NS_PID (int_bytes pid) _).
  assert (H1 : nlmsg_len m1 = 40).
  { unfold m1. rewrite append_nlmsg_len by (rewrite Hlen; simpl; lia).
    rewrite Hlen. reflexivity. }
  pose proof (cstring_length new_name) as Hc.
  pose proof (round_up4_bounds (sizeof_rtattr + (strlen new_name + 1))) as Hb.
  unfold sizeof_rtattr in *.
  assert (H4 : 4 <= nlmsg_len m1) by (rewrite H1; lia).
  assert (Hs : nlmsg_len m1 + Z.of_nat (List.length (cstring new_name)) + 10 < 2 ^ 32)
    by (rewrite H1, Hc; lia).
  pose proof (append_nlmsg_len m1 IFLA_IFNAME (cstring new_name) H4 Hs) as E1.
  pose proof (append_payload m1 IFLA_IFNAME (cstring new_name) H4 Hs) as E2.
  rewrite H1 in E1, E2.
  change (round_up4 40) with 40 in E1, E2. change (40 + 4) with 44 in E2.
  rewrite E1, E2, Hc.
  split; [reflexivity | split; [lia | split; [reflexivity | lia]]].
Qed.

(** ** The properties at work on the simulated kernel *)

Lemma nl_recv_effect_witness :
  let st := initial_state (mk_sim [] [error_reply (-1)]) in
  let req := if_up_req zero_block 1 in
  0 <= fst (fst (recvmsg 3 (nlmsg_len req) (kern st))) /\
  exists reply,
    fst (nl_recv 3 req st) = Done reply /\
    load_bytes reply 0 32 = firstn 32 (error_reply (-1)).
Proof.
  intros st req.
  assert (H : 0 <= fst (fst (recvmsg 3 (nlmsg_len req) (kern st))))
    by (vm_compute; discriminate).
  destruct (nl_recv_effect 3 req st) as (_ & E).
  destruct (E H) as (reply & E1 & E2 & _).
  split; [exact H |]. exists reply. split; [now rewrite E1 | exact E2].
Defined.

Lemma create_veth_pair_nesting_witness :
  let req := create_veth_pair_req zero_block "veth-out" "pflask-42" in
  32 + ops_size (veth_ops "veth-out" "pflask-42") <= NLMSG_GOOD_SIZE /\
  rta_type req 52 = VETH_INFO_PEER /\ rta_len req 52 = 36 /\
  rta_data req 72 = cstring "pflask-42".
Proof.
  intros req.
  assert (H : 32 + ops_size (veth_ops "veth-out" "pflask-42") <= NLMSG_GOOD_SIZE)
    by (vm_compute; discriminate).
  destruct (create_veth_pair_nesting zero_block "veth-out" "pflask-42" H)
    as (_ & _ & _ & _ & (E1 & E2) & _ & (_ & _ & E3) & _).
  split; [exact H | split; [exact E1 | split; [exact E2 | exact E3]]].
Defined.


Lemma reply_accepted_witness :
  let st := initial_state (sim_kernel [error_reply 0]) in
  let r := rq_if_up 1 in
  exists reply st',
    answered 3 r st = Some (reply, st') /\
    0 <= err_error reply /\
    call 3 r st = (Done tt, st').
Proof.
  intros st r.
  destruct (answered 3 r st) as [[reply st'] |] eqn:Hans;
    [| vm_compute in Hans; discriminate].
  assert (He : err_error reply = 0).
  { vm_compute in Hans. injection Hans as <- <-. vm_compute. reflexivity. }
  assert (Hok : nlmsg_type reply <> NLMSG_ERROR \/ 0 <= err_error reply)
    by (right; rewrite He; discriminate).
  exists reply, st'. split; [reflexivity | split; [rewrite He; discriminate |]].
  exact (reply_accepted 3 r st st' reply Hans Hok).
Defined.

Lemma interface_not_found_iff_witness :
  let st := initial_state (sim_kernel []) in
  let i := mk_netif MOVE "eth7" "wan" in
  (type i <> VETH /\ if_nametoindex (dev i) (kern st) = 0) /\
  netif_step 3 4242 i st =
  (Exit (InterfaceNotFound "eth7"), logged st (ev_if_nametoindex "eth7" 0)).
Proof.
  intros st i.
  assert (H1 : type i <> VETH) by discriminate.
  assert (H2 : if_nametoindex (dev i) (kern st) = 0) by reflexivity.
  destruct (interface_not_found_iff 3 4242 i st) as (_ & E & _).
  destruct (E H1 H2) as (E1 & _).
  split; [split; assumption | exact E1].
Defined.

Lemma transient_lookup_unchecked_witness :
  let st := initial_state (mk_sim [] []) in
  let i := mk_netif VETH "veth-out" "veth-in" in
  let st1 := snd (create_veth_pair 3 "veth-out" (asprintf_pflask 4242) st) in
  let st2 := logged st1 (ev_if_nametoindex "pflask-4242" 0) in
  (create_veth_pair 3 (dev i) (asprintf_pflask 4242) st = (Done tt, st1) /\
   if_nametoindex (asprintf_pflask 4242) (kern st1) = 0) /\
  netif_step 3 4242 i st = move_and_rename_if 3 4242 0 "veth-in" st2.
Proof.
  intros st i st1 st2.
  assert (H1 : create_veth_pair 3 (dev i) (asprintf_pflask 4242) st = (Done tt, st1))
    by (vm_compute; reflexivity).
  assert (H2 : if_nametoindex (asprintf_pflask 4242) (kern st1) = 0)
    by (vm_compute; reflexivity).
  destruct (transient_lookup_unchecked 3 4242 i st st1
              (or_introl (conj eq_refl H1)) H2) as (_ & E & _).
  split; [split; assumption | exact E].
Defined.

Lemma do_netif_fifo_witness :
  let st := initial_state (sim_kernel []) in
  let r := do_netif 4242 (snd (add_netifs scenario st)) in
  netifs st = [] /\ fst r = Done tt /\
  flat_map moved (trace (snd r)) =
  [(4242, "wan"); (4242, "mv0"); (4242, "veth-in")].
Proof.
  intros st r.
  assert (H0 : netifs st = []) by reflexivity.
  assert (Hd : fst r = Done tt) by (vm_compute; reflexivity).
  destruct (do_netif_fifo scenario 4242 st H0) as (_ & _ & E).
  split; [exact H0 | split; [exact Hd |]]. exact (E Hd).
Defined.

Lemma do_netif_twice_witness :
  let st := snd (add_netifs scenario (initial_state (sim_kernel []))) in
  let st1 := snd (do_netif 4242 st) in
  let st2 := snd (do_netif 4243 st1) in
  fst (do_netif 4242 st) = Done tt /\
  netifs st1 = [] /\
  flat_map sent (trace st2) = flat_map sent (trace st1).
Proof.
  intros st st1 st2.
  assert (Hd : fst (do_netif 4242 st) = Done tt) by (vm_compute; reflexivity).
  destruct (do_netif_twice 4242 4243 st Hd) as (E1 & _ & _ & _ & E2 & _).
  split; [exact Hd | split; [exact E1 | exact E2]].
Defined.

Lemma setup_loopback_request_witness :
  let st := initial_state (sim_kernel []) in
  nl_open st = (Done 3, snd (nl_open st)) /\
  flat_map sent (trace (snd (setup_loopback st))) =
  [load_bytes (if_up_req zero_block 1) 0 (Z.to_nat 32)].
Proof.
  intros st.
  assert (Ho : nl_open st = (Done 3, snd (nl_open st))) by (vm_compute; reflexivity).
  destruct (setup_loopback_request st) as (_ & _ & _ & E).
  destruct (E 3 (snd (nl_open st)) Ho) as (E1 & _).
  split; [exact Ho | exact E1].
Defined.


Lemma do_netif_done_witness :
  let st := snd (add_netifs scenario (initial_state (sim_kernel []))) in
  let st' := snd (do_netif 4242 st) in
  fst (do_netif 4242 st) = Done tt /\
  flat_map looked_up (trace st') =
    ["eth0"; "eth0"; "pflask-4242"; "pflask-4242"] /\
  List.length (flat_map sent (trace st')) = 5%nat.
Proof.
  intros st st'.
  assert (Hd : fst (do_netif 4242 st) = Done tt) by (vm_compute; reflexivity).
  destruct (do_netif_done 4242 st Hd) as (E1 & E2).
  split; [exact Hd | split; [exact E1 | exact E2]].
Defined.


Lemma nl_open_session_witness :
  let st := initial_state (sim_kernel []) in
  fst (nl_open st) = Done 3 /\
  trace (snd (nl_open st)) = [ev_socket 3; ev_bind 3 100 0].
Proof.
  intros st.
  assert (Hd : fst (nl_open st) = Done 3) by reflexivity.
  destruct (nl_open_session st) as (_ & _ & _ & E).
  destruct (E 3 Hd) as (_ & _ & _ & E1).
  split; [exact Hd | exact E1].
Defined.

Lemma move_and_rename_if_overrun_witness :
  let new_name := string_of_list_byte oversized in
  (NLMSG_GOOD_SIZE - 44 <= strlen new_name /\ strlen new_name + 100 < 2 ^ 32) /\
  nlmsg_len (move_and_rename_if_req zero_block 4242 2 new_name) = 9248.
Proof.
  intros new_name.
  assert (H1 : NLMSG_GOOD_SIZE - 44 <= strlen new_name) by (vm_compute; discriminate).
  assert (H2 : strlen new_name + 100 < 2 ^ 32) by (vm_compute; reflexivity).
  destruct (move_and_rename_if_overrun zero_block 4242 2 new_name H1 H2) as (E & _).
  split; [split; assumption |].
  rewrite E. vm_compute. reflexivity.
Defined.
